(** * wa-client-lite: the per-instance event queue, the local message store
      and its synchronisation with the remote backend.

    Shallow embedding of [src/whatsapp.ts] (class [WhatsappInstance]) and
    [src/log.ts] (class [Log]).  Asynchronous code is embedded in a
    reader/state/exception monad over an explicit world: every [await] of the
    source is a bind, every [try]/[catch] is [try_catch].  The event queue is
    embedded as a transition system whose transitions are the atomic segments
    of the single-threaded event loop (code between two [await]s). *)

From Stdlib Require Import List String Ascii Bool ZArith Lia Arith DecimalString.
Import ListNotations.
Local Open Scope string_scope.
Local Open Scope Z_scope.

Set Implicit Arguments.

(* ================================================================== *)
(** ** JavaScript values as the code uses them *)

(** Truthiness of a string: only the empty string is falsy. *)
Definition truthy_string (s : string) : bool :=
  match s with
  | EmptyString => false
  | String _ _ => true
  end.

(** [v || null] where [v] is a string or [undefined]. *)
Definition or_null_string (v : option string) : option string :=
  match v with
  | Some s => if truthy_string s then Some s else None
  | None => None
  end.

(** [v || null] where [v] is a number or [undefined]: [0] is falsy. *)
Definition or_null_number (v : option Z) : option Z :=
  match v with
  | Some n => if n =? 0 then None else Some n
  | None => None
  end.

(** [v || null] where [v] is an object ([Date]) or [undefined]: objects are
    always truthy. *)
Definition or_null_object (A : Type) (v : option A) : option A := v.

(** [v || d] where [v] is a string or [undefined] and [d] a string. *)
Definition or_default_string (v : option string) (d : string) : string :=
  match or_null_string v with
  | Some s => s
  | None => d
  end.

(** [arr[i]] for an integer [i]: [undefined] outside [0 .. length-1]. *)
Definition js_index (A : Type) (arr : list A) (i : Z) : option A :=
  if (0 <=? i) then nth_error arr (Z.to_nat i) else None.

(** SQL [COALESCE(?, col)]: the bound parameter unless it is NULL. *)
Definition COALESCE (A : Type) (param : option A) (col : A) : A :=
  match param with
  | Some v => v
  | None => col
  end.

(* ================================================================== *)
(** ** Data model *)

(** [ParsedMessage.ARQUIVO] as [saveMessage] reads it. *)
Record ParsedFile := mkParsedFile {
  pf_TIPO : option string;
  pf_NOME_ORIGINAL : option string;
  pf_NOME_ARQUIVO : option string;
  pf_ARMAZENAMENTO : option string
}.

(** [ParsedMessage] (declared in [./types], outside the sources at hand):
    the fields [saveMessage] reads, an optional field being [None] when it is
    [undefined] or [null]. *)
Record ParsedMessage := mkParsedMessage {
  pm_ID : string;
  pm_MENSAGEM : option string;
  pm_ID_REFERENCIA : option string;
  pm_TIPO : option string;
  pm_TIMESTAMP : option Z;
  pm_FROM_ME : bool;
  pm_DATA_HORA : option Z;
  pm_STATUS : option string;
  pm_ARQUIVO : option ParsedFile
}.

(** One row of table [messages]; the columns are those of the [INSERT] of
    [saveMessage].  Nullable columns are options, the two flags (0/1) are
    booleans. *)
Record Row := mkRow {
  ID : string;
  MENSAGEM : option string;
  ID_REFERENCIA : option string;
  TIPO : option string;
  TIMESTAMP : option Z;
  FROM_ME : bool;
  DATA_HORA : option Z;
  STATUS : option string;
  ARQUIVO_TIPO : option string;
  ARQUIVO_NOME_ORIGINAL : option string;
  ARQUIVO_NOME : option string;
  ARQUIVO_ARMAZENAMENTO : option string;
  SYNC_MESSAGE : bool;
  SYNC_STATUS : bool;
  INSTANCE : string;
  FROM : string
}.

(** The object passed to [updateMessage]: a field left out is [None]. *)
Record MessageUpdate := mkUpdate {
  u_SYNC_STATUS : option bool;
  u_SYNC_MESSAGE : option bool;
  u_STATUS : option string
}.

(** An HTTP request to the remote backend: method, URL and body. *)
Inductive Body :=
| BodyMessage (m : ParsedMessage)
| BodyStatus (status : option string).

Inductive Request :=
| POST (url : string) (body : Body)
| PUT (url : string) (body : Body).

(** A thrown JavaScript value. *)
Inductive JsError :=
| Error (message : string).

Inductive Outcome (A : Type) :=
| Returned (a : A)
| Thrown (e : JsError).
Arguments Thrown {A} e.

(** What a handler reads of a [WAWebJS.Message] event. *)
Record Message := mkMessage {
  id_serialized : string;
  msg_type : string;
  isStatus : bool;
  ack : Z
}.

(** What [onReceiveMessage] reads of the chat: [chat.id.user] and
    [chat.isGroup]. *)
Record Chat := mkChat {
  chat_user : string;
  isGroup : bool
}.

Inductive DBAutomaticMessage :=
| AutoMessage (id : Z).

(** The values stored in the [data] of a [Log<any>] by [whatsapp.ts]: an
    object is a list of keys and values. *)
Inductive JsValue :=
| VMessage (m : Message)
| VParsedMessage (p : option ParsedMessage)
| VSavedMessage (r : option string)
| VStatus (s : option string).

Definition Any : Type := list (string * JsValue).

(** [{ ...data, key: v }] *)
Fixpoint spread (obj : Any) (key : string) (v : JsValue) : Any :=
  match obj with
  | [] => [(key, v)]
  | (k, x) :: rest =>
      if String.eqb k key then (k, v) :: rest else (k, x) :: spread rest key v
  end.

(** What [Log] keeps and what [save] writes. *)
Record LogContext := mkLogContext {
  ctx_clientName : string;
  ctx_type : string;
  ctx_identifier : string
}.

Record LogEvent := mkLogEvent {
  occurredAt : Z;
  ev_context : string;
  ev_message : string
}.

(** The fields of a [Log] object; [finishedAt] is [undefined] ([None])
    until [finish] is called. *)
Record Log (T : Type) := mkLog {
  context : LogContext;
  startedAt : Z;
  lines : list LogEvent;
  finishedAt : option Z;
  data : T;
  error : option JsError;
  errorFilePath : option string
}.

(** The object [save] serialises into the file. *)
Record LogData (T : Type) := mkLogData {
  ld_context : LogContext;
  ld_startedAt : Z;
  ld_finishedAt : Z;
  ld_data : T;
  ld_lines : list LogEvent;
  ld_error : option JsError
}.

(** The constants of one [WhatsappInstance]. *)
Record Instance := mkInstance {
  clientName : string;
  whatsappNumber : string;
  requestURL : string;
  blockedNumbers : list string;
  autoMessages : list DBAutomaticMessage
}.

(* ================================================================== *)
(** ** The world and the monad *)

(** What the code reads from its surroundings and cannot change: whether
    the database ([getDBConnection]), the pool and the file system answer,
    what the remote backend replies to a request ([true] for a 2xx
    response), which identifiers table [w_mensagens] holds, the clock,
    [LOGS_PATH], and the results of the functions imported from [./utils]
    and [./build-automatic-messages], which are called but not defined in
    the sources at hand. *)
Record Env := mkEnv {
  db_up : bool;
  pool_up : bool;
  fs_up : bool;
  remote : Request -> bool;
  w_mensagens : list string;
  now : Z;
  LOGS_PATH : option string;
  isMessageFromNow : Message -> bool;
  getChat : Message -> Outcome Chat;
  messageParser : Message -> Outcome (option ParsedMessage);
  mapToParsedMessage : Row -> ParsedMessage;
  runAutoMessage : DBAutomaticMessage -> Message -> string -> Outcome unit
}.

(** What the code changes: table [messages], the requests sent so far, the
    files written (path and content) and the console lines. *)
Record World (F : Type) := mkWorld {
  messages : list Row;
  sent : list Request;
  files : list (string * F);
  console : list string
}.

(** Computations over a state [S]: the environment is read, the state is
    threaded, a thrown value skips the rest up to the enclosing
    [try_catch]; the state reached when the value is thrown is kept. *)
Definition Js (S A : Type) : Type := Env -> S -> Outcome A * S.

Definition ret (S A : Type) (a : A) : Js S A := fun _ s => (Returned a, s).

Definition bind (S A B : Type) (m : Js S A) (k : A -> Js S B) : Js S B :=
  fun env s =>
    match m env s with
    | (Returned a, s') => k a env s'
    | (Thrown e, s') => (Thrown e, s')
    end.

Definition throw (S A : Type) (e : JsError) : Js S A := fun _ s => (Thrown e, s).

(** [try { body } catch (err) { handler }] *)
Definition try_catch (S A : Type) (body : Js S A) (handler : JsError -> Js S A)
  : Js S A :=
  fun env s =>
    match body env s with
    | (Returned a, s') => (Returned a, s')
    | (Thrown e, s') => handler e env s'
    end.

(** [promise.catch(() => null)] *)
Definition catch_null (S : Type) (body : Js S unit) : Js S unit :=
  try_catch body (fun _ => ret tt).

(** An outcome decided by the surroundings. *)
Definition of_outcome (S A : Type) (o : Outcome A) : Js S A := fun _ s => (o, s).

Definition ask (S : Type) : Js S Env := fun env s => (Returned env, s).
Definition get (S : Type) : Js S S := fun _ s => (Returned s, s).
Definition modify (S : Type) (f : S -> S) : Js S unit := fun _ s => (Returned tt, f s).

(** A local mutable object [L] (a [Log]) next to the state [S]: [local]
    allocates it for the extent of [m], [lift] runs code that does not know
    it. *)
Definition local (S L A : Type) (init : L) (m : Js (S * L) A) : Js S A :=
  fun env s =>
    match m env (s, init) with
    | (o, (s', _)) => (o, s')
    end.

Definition lift (S L A : Type) (m : Js S A) : Js (S * L) A :=
  fun env sl =>
    match m env (fst sl) with
    | (o, s') => (o, (s', snd sl))
    end.

Arguments ret {S A} a.
Arguments bind {S A B} m k.
Arguments throw {S A} e.
Arguments try_catch {S A} body handler.
Arguments catch_null {S} body.
Arguments of_outcome {S A} o.
Arguments ask {S}.
Arguments get {S}.
Arguments modify {S} f.
Arguments local {S L A} init m.
Arguments lift {S L A} m.

Declare Scope js_scope.
Delimit Scope js_scope with js.
Notation "x <- m ;; k" := (bind m (fun x => k))
  (at level 100, m at next level, right associativity) : js_scope.
Notation "m ;;; k" := (bind m (fun _ => k))
  (at level 100, right associativity) : js_scope.
Local Open Scope js_scope.

(** [for (const x of xs) { await body(x) }] *)
Fixpoint for_of (S A : Type) (xs : list A) (body : A -> Js S unit) : Js S unit :=
  match xs with
  | [] => ret tt
  | x :: rest => body x ;;; for_of rest body
  end.

(* ================================================================== *)
(** ** Primitive effects *)

Section Effects.
Variable F : Type.

(** [logWithDate(...)] of [./utils]: one console line. *)
Definition logWithDate (line : string) : Js (World F) unit :=
  modify (fun w => mkWorld (messages w) (sent w) (files w) (console w ++ [line])).

(** [console.error(value)]: one console line, the value printed. *)
Definition console_error (value : string) : Js (World F) unit :=
  modify (fun w => mkWorld (messages w) (sent w) (files w) (console w ++ [value])).

(** [await getDBConnection()] *)
Definition getDBConnection : Js (World F) unit :=
  fun env w =>
    if db_up env then (Returned tt, w)
    else (Thrown (Error "getDBConnection"), w).

(** [await connection.execute(query, params)] for a statement that
    rewrites table [messages]. *)
Definition execute (statement : list Row -> list Row) : Js (World F) unit :=
  modify (fun w => mkWorld (statement (messages w)) (sent w) (files w) (console w)).

(** [await connection.execute(query, params)] for a [SELECT]. *)
Definition execute_select (where_ : Row -> bool) : Js (World F) (list Row) :=
  fun _ w => (Returned (filter where_ (messages w)), w).

(** [await axios.post(url, body)] and [await axios.put(url, body)]: the
    request is sent; the promise is rejected unless the reply is 2xx. *)
Definition axios (r : Request) : Js (World F) unit :=
  fun env w =>
    let w' := mkWorld (messages w) (sent w ++ [r]) (files w) (console w) in
    if remote env r then (Returned tt, w')
    else (Thrown (Error "Request failed"), w').

(** [this.pool.query("SELECT * FROM w_mensagens WHERE ID = ?", [id])
      .then(([rows]) => rows[0])] *)
Definition pool_query_w_mensagens (id : string) : Js (World F) (option string) :=
  fun env w =>
    if pool_up env
    then (Returned (find (String.eqb id) (w_mensagens env)), w)
    else (Thrown (Error "pool.query"), w).

(** [await mkdirp(logPath)] *)
Definition mkdirp (logPath : string) : Js (World F) unit :=
  fun env w =>
    if fs_up env then (Returned tt, w) else (Thrown (Error "mkdirp"), w).

(** [await writeFile(path, content)] *)
Definition writeFile (path : string) (content : F) : Js (World F) unit :=
  fun env w =>
    if fs_up env
    then (Returned tt,
          mkWorld (messages w) (sent w) ((path, content) :: files w) (console w))
    else (Thrown (Error "writeFile"), w).
End Effects.

Arguments getDBConnection {F}.

(** [`${n}`] for an integer [n]. *)
Definition string_of_Z (n : Z) : string := NilZero.string_of_int (Z.to_int n).

(** [path.join(...)]: a [TypeError] when an argument is not a string, else
    the segments separated by [/] (the segments are taken as they are,
    without the rewriting of [.], [..] and repeated separators). *)
Fixpoint join_segments (segs : list string) : string :=
  match segs with
  | [] => "."
  | [s] => s
  | s :: rest => s ++ "/" ++ join_segments rest
  end.

Fixpoint all_strings (args : list (option string)) : option (list string) :=
  match args with
  | [] => Some []
  | None :: _ => None
  | Some s :: rest =>
      match all_strings rest with
      | Some l => Some (s :: l)
      | None => None
      end
  end.

Definition path_join (S : Type) (args : list (option string)) : Js S string :=
  match all_strings args with
  | Some segs => ret (join_segments segs)
  | None => throw (Error "The path argument must be of type string")
  end.

(* ================================================================== *)
(** ** [src/log.ts]: class [Log] *)

Section LogClass.
Variable T : Type.

(** A method of a [Log<T>] runs on the world and on the object. *)
Definition LogState : Type := (World (LogData T) * Log T)%type.

Definition on_log (f : Log T -> Log T) : Js LogState unit :=
  modify (fun s => (fst s, f (snd s))).

(** [new Log(client, clientName, type, identifier, data)] at time
    [started]. *)
Definition new_Log (clientName type identifier : string) (started : Z) (d : T)
  : Log T :=
  mkLog (mkLogContext clientName type identifier) started [] None d None None.

Definition setData (cb : T -> T) : Js LogState unit :=
  on_log (fun l => mkLog (context l) (startedAt l) (lines l) (finishedAt l)
                     (cb (data l)) (error l) (errorFilePath l)).

Definition setError (err : JsError) : Js LogState unit :=
  on_log (fun l => mkLog (context l) (startedAt l) (lines l) (finishedAt l)
                     (data l) (Some err) (errorFilePath l)).

Definition event (ctx message : string) : Js LogState unit :=
  env <- ask ;;
  on_log (fun l => mkLog (context l) (startedAt l)
                     (lines l ++ [mkLogEvent (now env) ctx message])
                     (finishedAt l) (data l) (error l) (errorFilePath l)).

Definition finish : Js LogState unit :=
  env <- ask ;;
  on_log (fun l => mkLog (context l) (startedAt l) (lines l) (Some (now env))
                     (data l) (error l) (errorFilePath l)).

Definition save : Js LogState unit :=
  try_catch
    (s <- get ;;
     let this := snd s in
     match finishedAt this with
     | None => throw (Error "Cannot save log before it is finished.")
     | Some finished =>
         let logData :=
           mkLogData (context this) (startedAt this) finished (data this)
             (lines this) (error this) in
         env <- ask ;;
         let fileName := string_of_Z (now env) ++ ".json" in
         logPath <- path_join [LOGS_PATH env;
                               Some (ctx_clientName (context this));
                               Some (ctx_type (context this));
                               Some (ctx_identifier (context this))] ;;
         filePath <- path_join [Some logPath; Some fileName] ;;
         on_log (fun l => mkLog (context l) (startedAt l) (lines l)
                            (finishedAt l) (data l) (error l) (Some filePath)) ;;;
         lift (mkdirp logPath) ;;;
         lift (writeFile filePath logData)
     end)
    (fun err => lift (logWithDate "log save error:")).
End LogClass.

Arguments setData {T} cb.
Arguments setError {T} err.
Arguments finish {T}.
Arguments save {T}.

(* ================================================================== *)
(** ** [src/whatsapp.ts]: the statements on table [messages] *)

(** Modelled from the spec: the unique key of table [messages], the
    declaration of the table being outside the sources at hand ("uniqueness
    on identifier"); the comparison is that of [WHERE ID = ?]. *)
Definition duplicate_key (values r : Row) : bool := String.eqb (ID r) (ID values).

(** The [ON DUPLICATE KEY UPDATE] list of [saveMessage]: twelve columns take
    the new values, [ID], [ID_REFERENCIA], [INSTANCE] and [FROM] stay. *)
Definition ON_DUPLICATE_KEY_UPDATE (values r : Row) : Row :=
  mkRow (ID r)
        (MENSAGEM values)
        (ID_REFERENCIA r)
        (TIPO values)
        (TIMESTAMP values)
        (FROM_ME values)
        (DATA_HORA values)
        (STATUS values)
        (ARQUIVO_TIPO values)
        (ARQUIVO_NOME_ORIGINAL values)
        (ARQUIVO_NOME values)
        (ARQUIVO_ARMAZENAMENTO values)
        (SYNC_MESSAGE values)
        (SYNC_STATUS values)
        (INSTANCE r)
        (FROM r).

(** [INSERT INTO messages (...) VALUES (...) ON DUPLICATE KEY UPDATE ...]:
    the row that holds the key is updated, else the new row is added. *)
Fixpoint INSERT (values : Row) (rows : list Row) : list Row :=
  match rows with
  | [] => [values]
  | r :: rest =>
      if duplicate_key values r
      then ON_DUPLICATE_KEY_UPDATE values r :: rest
      else r :: INSERT values rest
  end.

(** [COALESCE(?, col)] on a nullable column. *)
Definition COALESCE_null (A : Type) (param col : option A) : option A :=
  match param with
  | Some v => Some v
  | None => col
  end.

(** [UPDATE messages SET STATUS = COALESCE(?, STATUS),
      SYNC_STATUS = COALESCE(?, SYNC_STATUS),
      SYNC_MESSAGE = COALESCE(?, SYNC_MESSAGE) WHERE ID = ?] *)
Definition UPDATE (p_STATUS : option string) (p_SYNC_STATUS p_SYNC_MESSAGE : option bool)
    (p_ID : string) (rows : list Row) : list Row :=
  map (fun r =>
         if String.eqb (ID r) p_ID
         then mkRow (ID r) (MENSAGEM r) (ID_REFERENCIA r) (TIPO r) (TIMESTAMP r)
                (FROM_ME r) (DATA_HORA r)
                (COALESCE_null p_STATUS (STATUS r))
                (ARQUIVO_TIPO r) (ARQUIVO_NOME_ORIGINAL r) (ARQUIVO_NOME r)
                (ARQUIVO_ARMAZENAMENTO r)
                (COALESCE p_SYNC_MESSAGE (SYNC_MESSAGE r))
                (COALESCE p_SYNC_STATUS (SYNC_STATUS r))
                (INSTANCE r) (FROM r)
         else r)
      rows.

(** [SELECT * FROM messages WHERE (SYNC_MESSAGE = 0 OR SYNC_STATUS = 0)
      AND INSTANCE = ?] *)
Definition unsynced (p_INSTANCE : string) (r : Row) : bool :=
  (negb (SYNC_MESSAGE r) || negb (SYNC_STATUS r))
  && String.eqb (INSTANCE r) p_INSTANCE.

(** [message.ARQUIVO?.FIELD] *)
Definition ARQUIVO (field : ParsedFile -> option string) (message : ParsedMessage)
  : option string :=
  match pm_ARQUIVO message with
  | Some arquivo => field arquivo
  | None => None
  end.

(** [list.includes(x)] on strings. *)
Definition includes (l : list string) (x : string) : bool :=
  existsb (String.eqb x) l.

Definition blockedTypes : list string :=
  ["e2e_notification"; "notification_template"; "call_log"; "gp2"].

(** The array indexed by [message.ack] in [onReceiveMessageStatus]. *)
Definition statuses : list string :=
  ["PENDING"; "SENT"; "RECEIVED"; "READ"; "PLAYED"].

(** [["PENDING", "SENT", "RECEIVED", "READ", "PLAYED"][ack] || "ERROR"] *)
Definition ack_status (ack : Z) : string :=
  or_default_string (js_index statuses ack) "ERROR".

(* ================================================================== *)
(** ** [src/whatsapp.ts]: class [WhatsappInstance] *)

Section WhatsappInstance.
Variable this : Instance.

Definition W : Type := World (LogData Any).

(** The prefix of the console lines and the value of column [INSTANCE]. *)
Definition tag : string :=
  "[" ++ clientName this ++ " - " ++ whatsappNumber this ++ "]".

Definition instance_key : string :=
  clientName this ++ "_" ++ whatsappNumber this.

(** The sixteen bound parameters of [saveMessage], as the row they
    describe. *)
Definition saveMessage_params (message : ParsedMessage) (from : string) : Row :=
  mkRow (pm_ID message)
        (or_null_string (pm_MENSAGEM message))
        (or_null_string (pm_ID_REFERENCIA message))
        (or_null_string (pm_TIPO message))
        (or_null_number (pm_TIMESTAMP message))
        (if pm_FROM_ME message then true else false)
        (or_null_object (pm_DATA_HORA message))
        (or_null_string (pm_STATUS message))
        (or_null_string (ARQUIVO pf_TIPO message))
        (or_null_string (ARQUIVO pf_NOME_ORIGINAL message))
        (or_null_string (ARQUIVO pf_NOME_ARQUIVO message))
        (or_null_string (ARQUIVO pf_ARMAZENAMENTO message))
        false
        false
        instance_key
        from.

(** [log.save()] is called without [await] in [whatsapp.ts]; its effects
    are placed where the call is. *)
Definition saveMessage (message : ParsedMessage) (from : string) : Js W unit :=
  env <- ask ;;
  local (new_Log (clientName this) "save-local-message" (pm_ID message) (now env)
           [("message", VParsedMessage (Some message))])
    (try_catch
       (lift (getDBConnection ;;;
              execute (INSERT (saveMessage_params message from)) ;;;
              logWithDate (tag ++ " Message saved successfully => " ++ pm_ID message)))
       (fun err =>
          setError err ;;;
          save ;;;
          lift (logWithDate (tag ++ " Save message failure => " ++ pm_ID message)))).

Definition updateMessage (id : string) (u : MessageUpdate) : Js W unit :=
  try_catch
    (getDBConnection ;;;
     execute (UPDATE (or_null_string (u_STATUS u))
                     (u_SYNC_STATUS u)
                     (u_SYNC_MESSAGE u)
                     id) ;;;
     logWithDate (tag ++ " Message updated successfully => " ++ id))
    (fun err => logWithDate (tag ++ " Update message failure =>")).

(** The task [onReceiveMessage] puts on the queue.  [updateMessage] is
    called without [await] there, and so is [log.save()] in the handler;
    their effects are placed where the calls are.  A thrown value of this
    model has no [response], so [err?.response?.data] is [undefined]. *)
Definition onReceiveMessage_task (message : Message) : Js W unit :=
  env <- ask ;;
  local (new_Log (clientName this) "send-file" (string_of_Z (now env)) (now env)
           [("message", VMessage message)])
    (try_catch
       (let fromNow := isMessageFromNow env message in
        chat <- of_outcome (getChat env message) ;;
        let contactNumber := chat_user chat in
        let isStatus' := isStatus message in
        let isBlackListedType := includes blockedTypes (msg_type message) in
        let isBlackListedContact := includes (blockedNumbers this) contactNumber in
        let isBlackListed := isBlackListedType || isBlackListedContact in
        for_of (autoMessages this)
          (fun autoMessage =>
             of_outcome (runAutoMessage env autoMessage message contactNumber)) ;;;
        if negb (isGroup chat) && fromNow && negb (isStatus message)
           && negb isBlackListed && negb isStatus'
        then
          parsedMessage <- of_outcome (messageParser env message) ;;
          setData (fun data => spread data "parsedMessage" (VParsedMessage parsedMessage)) ;;;
          match parsedMessage with
          | None => throw (Error "Parse message failure")
          | Some parsedMessage =>
              lift (saveMessage parsedMessage contactNumber) ;;;
              lift (catch_null
                      (axios (POST (requestURL this ++ "/receive_message/"
                                      ++ whatsappNumber this ++ "/" ++ contactNumber)
                                   (BodyMessage parsedMessage)))) ;;;
              savedMessage <- lift (pool_query_w_mensagens (pm_ID parsedMessage)) ;;
              setData (fun data => spread data "savedMessage" (VSavedMessage savedMessage)) ;;;
              match savedMessage with
              | Some _ =>
                  lift (updateMessage (pm_ID parsedMessage)
                          (mkUpdate (Some true) (Some true) None))
              | None => ret tt
              end ;;;
              lift (logWithDate (tag ++ " Message success => " ++ id_serialized message))
          end
        else ret tt)
       (fun err =>
          setError err ;;;
          save ;;;
          lift (console_error "undefined") ;;;
          lift (logWithDate (tag ++ " Message failure => " ++ id_serialized message)))).

(** The task [onReceiveMessageStatus] puts on the queue. *)
Definition onReceiveMessageStatus_task (message : Message) : Js W unit :=
  try_catch
    (let status := ack_status (ack message) in
     catch_null
       (axios (PUT (requestURL this ++ "/update_message/" ++ id_serialized message)
                   (BodyStatus (Some status)))) ;;;
     updateMessage (id_serialized message) (mkUpdate (Some true) None None) ;;;
     logWithDate (tag ++ " Status success => " ++ status ++ " " ++ id_serialized message))
    (fun err =>
       logWithDate (tag ++ " Status failure =>") ;;;
       updateMessage (id_serialized message) (mkUpdate (Some false) None None)).

(** The body of the [for] loop of [syncMessagesWithServer] for one
    selected row; [SYNC_MESSAGE], [SYNC_STATUS] and [STATUS] are read from
    the selected row, once. *)
Definition sync_row (message : Row) : Js W unit :=
  env <- ask ;;
  local (new_Log (clientName this) "sync-message" (ID message) (now env) [])
    (try_catch
       ((if negb (SYNC_MESSAGE message)
         then
           let parsedMessage := mapToParsedMessage env message in
           setData (fun _ => [("parsedMessage", VParsedMessage (Some parsedMessage))]) ;;;
           lift (axios (POST (requestURL this ++ "/receive_message/"
                                ++ whatsappNumber this ++ "/" ++ FROM message)
                             (BodyMessage parsedMessage)) ;;;
                 updateMessage (ID message) (mkUpdate (Some true) (Some true) None))
         else ret tt) ;;;
        (if SYNC_MESSAGE message && negb (SYNC_STATUS message)
         then
           setData (fun _ => [("status", VStatus (STATUS message))]) ;;;
           lift (axios (PUT (requestURL this ++ "/update_message/" ++ FROM message)
                            (BodyStatus (STATUS message))) ;;;
                 updateMessage (ID message) (mkUpdate (Some true) None None))
         else ret tt))
       (fun err =>
          setError err ;;;
          save ;;;
          lift (logWithDate (tag ++ " Sync message failure => " ++ ID message)))).

Definition syncMessagesWithServer : Js W unit :=
  try_catch
    (getDBConnection ;;;
     rows <- execute_select (unsynced instance_key) ;;
     for_of rows sync_row)
    (fun err => logWithDate (tag ++ " Sync messages failure =>")).
End WhatsappInstance.

(* ================================================================== *)
(** ** [src/whatsapp.ts]: the unified queue

    JavaScript runs one segment of code at a time, from one [await] to the
    next.  The segments that touch the queue are: a call of
    [enqueueProcessing] (with the start of [processUnifiedQueue] it makes),
    and the continuation of an activation of [processUnifiedQueue] when the
    task it awaits settles.  A state lists, next to the two fields of the
    instance, the tasks that were called and have not settled, each with the
    [type] and [id] of the activation that awaits it, and three histories
    that the code does not keep: the tasks in the order they were pushed,
    called and settled. *)

Section UnifiedQueue.
Variable Task : Type.

(** The arguments [type] and [id] of an activation of
    [processUnifiedQueue]. *)
Definition Activation : Type := (string * string)%type.

Record Queue := mkQueue {
  unifiedQueue : list Task;
  processingUnifiedQueue : bool;
  running : list (Task * Activation);
  enqueued : list Task;
  started : list Task;
  settled : list Task;
  processing_lines : list string
}.

Definition new_queue : Queue := mkQueue [] false [] [] [] [] [].

(** From the test of the [while] to the next [await], or to the end of
    [processUnifiedQueue]: the loop either shifts the first task, prints
    the line and calls the task, or sees the list empty and resets the
    flag.  (A task is a function, so [if (task)] holds.) *)
Definition while_loop (act : Activation) (q : Queue) : Queue :=
  match unifiedQueue q with
  | task :: rest =>
      mkQueue rest
              (processingUnifiedQueue q)
              (running q ++ [(task, act)])
              (enqueued q)
              (started q ++ [task])
              (settled q)
              (processing_lines q ++ ["Processing " ++ fst act ++ " " ++ snd act ++ "..."])
  | [] =>
      mkQueue []
              false
              (running q)
              (enqueued q)
              (started q)
              (settled q)
              (processing_lines q)
  end.

Definition processUnifiedQueue (type id : string) (q : Queue) : Queue :=
  if processingUnifiedQueue q then q
  else
    while_loop (type, id)
      (mkQueue (unifiedQueue q) true (running q) (enqueued q) (started q)
               (settled q) (processing_lines q)).

Definition enqueueProcessing (task : Task) (type id : string) (q : Queue) : Queue :=
  processUnifiedQueue type id
    (mkQueue (unifiedQueue q ++ [task]) (processingUnifiedQueue q) (running q)
             (enqueued q ++ [task]) (started q) (settled q) (processing_lines q)).

Definition enqueueMessageProcessing (task : Task) (id : string) : Queue -> Queue :=
  enqueueProcessing task "message" id.

Definition enqueueStatusProcessing (task : Task) (id : string) : Queue -> Queue :=
  enqueueProcessing task "status" id.

(** The list without its element at position [i]. *)
Definition without (A : Type) (i : nat) (l : list A) : list A :=
  firstn i l ++ skipn (S i) l.

(** What can happen to the queue: an enqueue call, and the promise of the
    [i]-th task under way being fulfilled or rejected. *)
Inductive QueueEvent :=
| EnqueueMessage (task : Task) (id : string)
| EnqueueStatus (task : Task) (id : string)
| Fulfilled (i : nat)
| Rejected (i : nat).

(** The promise of a task under way settles: the task is over. *)
Definition settle (i : nat) (task : Task) (q : Queue) : Queue :=
  mkQueue (unifiedQueue q) (processingUnifiedQueue q) (without i (running q))
          (enqueued q) (started q) (settled q ++ [task]) (processing_lines q).

(** One segment.  When the awaited promise is fulfilled the activation
    goes back to the test of the [while]; when it is rejected the [await]
    throws, no handler is around it, and the activation ends there.  An
    event on a task that is not under way cannot happen and changes
    nothing. *)
Definition queue_step (q : Queue) (ev : QueueEvent) : Queue :=
  match ev with
  | EnqueueMessage task id => enqueueMessageProcessing task id q
  | EnqueueStatus task id => enqueueStatusProcessing task id q
  | Fulfilled i =>
      match nth_error (running q) i with
      | Some (task, act) => while_loop act (settle i task q)
      | None => q
      end
  | Rejected i =>
      match nth_error (running q) i with
      | Some (task, _) => settle i task q
      | None => q
      end
  end.

Definition queue_run (evs : list QueueEvent) (q : Queue) : Queue :=
  fold_left queue_step evs q.

(** The tasks a sequence of events pushes. *)
Fixpoint pushed (evs : list QueueEvent) : list Task :=
  match evs with
  | [] => []
  | EnqueueMessage task _ :: rest => task :: pushed rest
  | EnqueueStatus task _ :: rest => task :: pushed rest
  | _ :: rest => pushed rest
  end.

(** What holds of every state the queue reaches. *)
Definition queue_inv (q : Queue) : Prop :=
  (started q ++ unifiedQueue q)%list = enqueued q
  /\ (settled q ++ map fst (running q))%list = started q
  /\ (List.length (running q) <= 1)%nat
  /\ (processingUnifiedQueue q = false -> unifiedQueue q = [] /\ running q = []).

(** The worker is gone and the flag is still set. *)
Definition stranded (q : Queue) : Prop :=
  processingUnifiedQueue q = true /\ running q = [].
End UnifiedQueue.

Arguments new_queue {Task}.
Arguments Fulfilled {Task} i.
Arguments Rejected {Task} i.

(** The two handlers of the instance: each wraps its work in a task and
    enqueues it under [message.id._serialized]. *)
Definition Task : Type := Js W unit.

Definition onReceiveMessage (this : Instance) (message : Message)
  : Queue Task -> Queue Task :=
  enqueueMessageProcessing (onReceiveMessage_task this message) (id_serialized message).

Definition onReceiveMessageStatus (this : Instance) (message : Message)
  : Queue Task -> Queue Task :=
  enqueueStatusProcessing (onReceiveMessageStatus_task this message)
    (id_serialized message).

(* ================================================================== *)
(** ** A concrete instance and concrete surroundings

    Used where a property is checked on an explicit input. *)

Definition acme : Instance :=
  mkInstance "acme" "5511900000000" "http://backend" [] [].

(** A stored text message of instance [acme] from contact
    [5511988887777]. *)
Definition stored (id : string) (status : option string)
    (sync_message sync_status : bool) : Row :=
  mkRow id (Some "hi") None (Some "chat") (Some 1700000000) false
        (Some 1700000000000) status None None None None
        sync_message sync_status "acme_5511900000000" "5511988887777".

(** A parsed text message with the given identifier and body. *)
Definition text_message (id : string) (body : option string) : ParsedMessage :=
  mkParsedMessage id body None (Some "chat") (Some 1700000000) false
                  (Some 1700000000000) (Some "RECEIVED") None.

(** Surroundings where the database, the pool and the file system answer
    or not ([up]), the backend replies as [reply] says, table [w_mensagens]
    holds [backend_ids], every message comes from a private chat with
    [5511988887777] and parses to a text message with body [hi]. *)
Definition surroundings (up : bool) (reply : Request -> bool)
    (backend_ids : list string) : Env :=
  mkEnv up up up reply backend_ids 1700000000500 (Some "/var/log/wa")
        (fun _ => true)
        (fun _ => Returned (mkChat "5511988887777" false))
        (fun m => Returned (Some (text_message (id_serialized m) (Some "hi"))))
        (fun r => mkParsedMessage (ID r) (MENSAGEM r) (ID_REFERENCIA r) (TIPO r)
                    (TIMESTAMP r) (FROM_ME r) (DATA_HORA r) (STATUS r) None)
        (fun _ _ _ => Returned tt).

Definition world_of (rows : list Row) : W := mkWorld rows [] [] [].

(** The rows of a table that hold the identifier [id]. *)
Definition rows_with (id : string) (rows : list Row) : list Row :=
  filter (fun r => String.eqb (ID r) id) rows.

(** The key constraint of table [messages]: no two rows hold the same
    identifier. *)
Definition unique_key (rows : list Row) : Prop := NoDup (map ID rows).

(* ================================================================== *)
(** ** Properties of computations *)

(** [m] keeps a property of the state, whether it returns or throws. *)
Definition preserves (S A : Type) (I : S -> Prop) (m : Js S A) : Prop :=
  forall env s, I s -> I (snd (m env s)).

(** [m] never throws. *)
Definition returns (S A : Type) (m : Js S A) : Prop :=
  forall env s, exists a, fst (m env s) = Returned a.

(** The files are those of [fs]. *)
Definition files_are (fs : list (string * LogData Any)) (w : W) : Prop :=
  files w = fs.

(** The files are those of [fs] and the log at hand is not finished. *)
Definition files_are_unfinished (fs : list (string * LogData Any))
    (s : LogState Any) : Prop :=
  files_are fs (fst s) /\ finishedAt (snd s) = None.

(* ================================================================== *)
(** ** Vocabulary for the sweep and the store *)

(** The request [syncMessagesWithServer] sends for a selected row: the
    message when SYNC_MESSAGE is off, else the status. *)
Definition sweep_request (this : Instance) (env : Env) (message : Row) : Request :=
  if negb (SYNC_MESSAGE message)
  then POST (requestURL this ++ "/receive_message/"
               ++ whatsappNumber this ++ "/" ++ FROM message)
            (BodyMessage (mapToParsedMessage env message))
  else PUT (requestURL this ++ "/update_message/" ++ FROM message)
           (BodyStatus (STATUS message)).

(** The statement [syncMessagesWithServer] runs for a selected row once
    its request is acknowledged. *)
Definition sweep_update (message : Row) (rows : list Row) : list Row :=
  if negb (SYNC_MESSAGE message)
  then UPDATE None (Some true) (Some true) (ID message) rows
  else UPDATE None (Some true) None (ID message) rows.

(** What one sweep does to the table, row after row of the selection. *)
Definition sweep_table (this : Instance) (env : Env) (selected rows : list Row)
  : list Row :=
  fold_left
    (fun table message =>
       if remote env (sweep_request this env message) && db_up env
       then sweep_update message table
       else table)
    selected rows.

(** Two rows agree on every column but the two flags. *)
Definition same_content (r r' : Row) : Prop :=
  ID r' = ID r /\ MENSAGEM r' = MENSAGEM r /\ ID_REFERENCIA r' = ID_REFERENCIA r
  /\ TIPO r' = TIPO r /\ TIMESTAMP r' = TIMESTAMP r /\ FROM_ME r' = FROM_ME r
  /\ DATA_HORA r' = DATA_HORA r /\ STATUS r' = STATUS r
  /\ ARQUIVO_TIPO r' = ARQUIVO_TIPO r
  /\ ARQUIVO_NOME_ORIGINAL r' = ARQUIVO_NOME_ORIGINAL r
  /\ ARQUIVO_NOME r' = ARQUIVO_NOME r
  /\ ARQUIVO_ARMAZENAMENTO r' = ARQUIVO_ARMAZENAMENTO r
  /\ INSTANCE r' = INSTANCE r /\ FROM r' = FROM r.

(** [r'] is [r] with flags that were on still on. *)
Definition flags_raised (r r' : Row) : Prop :=
  same_content r r'
  /\ (SYNC_MESSAGE r = true -> SYNC_MESSAGE r' = true)
  /\ (SYNC_STATUS r = true -> SYNC_STATUS r' = true).

(** Both flags are on. *)
Definition is_settled (r : Row) : bool := SYNC_MESSAGE r && SYNC_STATUS r.

(** What the [UPDATE] of [updateMessage] does to one row. *)
Definition update_row (p_STATUS : option string) (p_SYNC_STATUS p_SYNC_MESSAGE : option bool)
    (p_ID : string) (r : Row) : Row :=
  if String.eqb (ID r) p_ID
  then mkRow (ID r) (MENSAGEM r) (ID_REFERENCIA r) (TIPO r) (TIMESTAMP r)
         (FROM_ME r) (DATA_HORA r)
         (COALESCE_null p_STATUS (STATUS r))
         (ARQUIVO_TIPO r) (ARQUIVO_NOME_ORIGINAL r) (ARQUIVO_NOME r)
         (ARQUIVO_ARMAZENAMENTO r)
         (COALESCE p_SYNC_MESSAGE (SYNC_MESSAGE r))
         (COALESCE p_SYNC_STATUS (SYNC_STATUS r))
         (INSTANCE r) (FROM r)
  else r.

(** What one sweep does to one row of the table. *)
Definition sweep_row (this : Instance) (env : Env) (selected : list Row) (r : Row) : Row :=
  fold_left
    (fun acc message =>
       if remote env (sweep_request this env message) && db_up env
       then update_row None (Some true)
              (if negb (SYNC_MESSAGE message) then Some true else None)
              (ID message) acc
       else acc)
    selected r.

(** The test of [onReceiveMessage] before it stores a message: a private
    chat, a message from now, no status, neither a blocked type nor a
    blocked contact. *)
Definition accepted (this : Instance) (env : Env) (message : Message) (chat : Chat)
  : bool :=
  negb (isGroup chat) && isMessageFromNow env message && negb (isStatus message)
  && negb (includes blockedTypes (msg_type message)
           || includes (blockedNumbers this) (chat_user chat))
  && negb (isStatus message).

(** The request [onReceiveMessage] sends for a parsed message of a
    contact. *)
Definition receive_message_request (this : Instance) (contactNumber : string)
    (parsedMessage : ParsedMessage) : Request :=
  POST (requestURL this ++ "/receive_message/"
          ++ whatsappNumber this ++ "/" ++ contactNumber)
       (BodyMessage parsedMessage).

(** The update object that stands for [u1] followed by [u2]: field by
    field the later value when it is given, else the earlier one. *)
Definition merge_updates (u1 u2 : MessageUpdate) : MessageUpdate :=
  mkUpdate (COALESCE_null (u_SYNC_STATUS u2) (u_SYNC_STATUS u1))
           (COALESCE_null (u_SYNC_MESSAGE u2) (u_SYNC_MESSAGE u1))
           (COALESCE_null (or_null_string (u_STATUS u2)) (or_null_string (u_STATUS u1))).

(* ================================================================== *)
(** ** Vocabulary for the runs of the queue *)

(** No task of the sequence of events is rejected. *)
Definition no_rejection (Task : Type) (evs : list (QueueEvent Task)) : Prop :=
  Forall (fun ev => match ev with Rejected _ => False | _ => True end) evs.

(** Whenever the flag is set a task is under way. *)
Definition worker_alive (Task : Type) (q : Queue Task) : Prop :=
  processingUnifiedQueue q = true -> exists x, running q = [x].

(** The task under way, then each waiting task in turn, is fulfilled. *)
Definition drain (Task : Type) (q : Queue Task) : list (QueueEvent Task) :=
  repeat (Fulfilled 0) (List.length (running q) + List.length (unifiedQueue q)).

(** The line [processUnifiedQueue] prints before it calls a task. *)
Definition processing_line (act : Activation) : string :=
  "Processing " ++ fst act ++ " " ++ snd act ++ "...".



(* ================================================================== *)
(** ** JavaScript strings: [split], [join], template literals *)

(** The character occurs in the string. *)
Fixpoint has_char (c : ascii) (s : string) : bool :=
  match s with
  | EmptyString => false
  | String a rest => Ascii.eqb a c || has_char c rest
  end.

(** [s.split(sep)] for a separator of one character. *)
Fixpoint split (sep : ascii) (s : string) : list string :=
  match s with
  | EmptyString => [EmptyString]
  | String c rest =>
      if Ascii.eqb c sep then EmptyString :: split sep rest
      else match split sep rest with
           | first :: others => String c first :: others
           | [] => [String c EmptyString]
           end
  end.

(** [parts.join(sep)] *)
Fixpoint join (sep : string) (parts : list string) : string :=
  match parts with
  | [] => EmptyString
  | [part] => part
  | part :: rest => part ++ sep ++ join sep rest
  end.

(** [`${v}`] for a string or [undefined]. *)
Definition template (v : option string) : string :=
  match v with
  | Some s => s
  | None => "undefined"
  end.

(** The double quote. *)
Definition quote : string := String (Ascii.ascii_of_nat 34) EmptyString.

(* ================================================================== *)
(** ** The router ([AppRouter]): the file routes

    A handler runs on a world whose files are the stored media (path and
    content) and returns the response it sends.  The functions of
    [./utils], [mime], [node:path] and [node:crypto] that the handlers call
    are parameters: [decodeURIComponent] (which throws on a malformed
    name), [isUUID], [mime.getType], the path
    [join(FILES_DIRECTORY, "/media", name)] (which throws when the
    directory is not configured) and the value of [randomUUID()]. *)

Record UploadedFile := mkUploadedFile {
  originalname : string;
  buffer : string;
  mimetype : string
}.

Inductive ResponseBody :=
| NoBody
| JsonMessage (message : string)
| JsonFilename (filename : string)
| JsonParsedMessage (sentMessage : option ParsedMessage)
| FileContent (content : string).

(** The response of a handler: the status ([200] unless [res.status] was
    called), the headers set and the body. *)
Record Response := mkResponse {
  res_status : nat;
  res_headers : list (string * string);
  res_body : ResponseBody
}.

Section FileRoutes.
Variable decodeURIComponent : string -> Outcome string.
Variable isUUID : string -> bool.
Variable getType : string -> option string.
Variable media_path : string -> Outcome string.

Definition FileWorld : Type := World string.

(** [existsSync(path)] *)
Definition existsSync (path : string) : Js FileWorld bool :=
  fun _ w =>
    (Returned (existsb (fun entry => String.eqb (fst entry) path) (files w)), w).

(** [readFileSync(path)]: the content written last, an error when there is
    no such file. *)
Definition readFileSync (path : string) : Js FileWorld string :=
  fun _ w =>
    match find (fun entry => String.eqb (fst entry) path) (files w) with
    | Some entry => (Returned (snd entry), w)
    | None => (Thrown (Error "ENOENT: no such file or directory"), w)
    end.

(** [uploadFile]; [uuid] is the value of [randomUUID()]. *)
Definition uploadFile (file : option UploadedFile) (uuid : string)
  : Js FileWorld Response :=
  try_catch
    (match file with
     | None => ret (mkResponse 400 [] NoBody)
     | Some file =>
         decoded <- of_outcome (decodeURIComponent (originalname file)) ;;
         let filename := nth_error (split "." decoded) 0 in
         decoded' <- of_outcome (decodeURIComponent (originalname file)) ;;
         let ext := nth_error (split "." decoded') 1 in
         let generatedName :=
           template (Some uuid) ++ "_" ++ template filename ++ "." ++ template ext in
         filePath <- of_outcome (media_path generatedName) ;;
         writeFile filePath (buffer file) ;;;
         ret (mkResponse 201 [] (JsonFilename generatedName))
     end)
    (fun err =>
       logWithDate "Upload file failure => " ;;;
       ret (mkResponse 500 [] (JsonMessage "Something went wrong"))).

(** [getFile] for [req.params.filename]. *)
Definition getFile (fileName : string) : Js FileWorld Response :=
  try_catch
    (searchFilePath <- of_outcome (media_path fileName) ;;
     found <- existsSync searchFilePath ;;
     if negb found
     then ret (mkResponse 404 [] (JsonMessage "File not found"))
     else
       let mimeType := getType searchFilePath in
       file <- readFileSync searchFilePath ;;
       let haveUUID := isUUID (template (nth_error (split "_" fileName) 0)) in
       let fileNameWithoutUUID :=
         if haveUUID then join "_" (tl (split "_" fileName)) else fileName in
       let disposition :=
         ("Content-Disposition",
          "inline; filename=" ++ quote ++ fileNameWithoutUUID ++ quote) in
       let headers :=
         match or_null_string mimeType with
         | Some type => [disposition; ("Content-Type", type)]
         | None => [disposition]
         end in
       logWithDate ("Get file success => " ++ fileName) ;;;
       ret (mkResponse 200 headers (FileContent file)))
    (fun err =>
       logWithDate "Get file failure =>" ;;;
       ret (mkResponse 500 [] (JsonMessage "Something went wrong"))).
End FileRoutes.

(* ================================================================== *)
(** ** The messaging client and the sends

    [client.getNumberId] and [client.sendMessage] belong to
    [whatsapp-web.js]; what they answer is a parameter, and every call of
    [client.sendMessage] is recorded next to the world. *)

(** A [ContactId]: [_serialized] and [user]. *)
Record NumberId := mkNumberId {
  wid_serialized : string;
  wid_user : string
}.

(** What is sent: a text, or a [MessageMedia(mimetype, data, filename)]. *)
Inductive Content :=
| Text (body : option string)
| Media (mimeType : string) (data : string) (fileName : option string).

(** The options of [client.sendMessage] the code uses; [None] for one
    left out. *)
Record SendOptions := mkSendOptions {
  opt_caption : option string;
  opt_quotedMessageId : option string;
  opt_sendAudioAsVoice : option bool
}.

(** One call [client.sendMessage(chatId, content, options)]. *)
Record Outgoing := mkOutgoing {
  out_chatId : string;
  out_content : Content;
  out_options : SendOptions
}.

Record Client := mkClient {
  getNumberId : string -> Outcome (option NumberId);
  sendMessage_reply : Outgoing -> Outcome Message
}.

(** The argument of [sendFile]. *)
Record SendFileOptions := mkSendFileOptions {
  sf_contact : string;
  sf_file : string;
  sf_mimeType : string;
  sf_fileName : option string;
  sf_caption : option string;
  sf_quotedMessageId : option string;
  sf_isAudio : option string
}.

(** The values [sendText] and [sendFile] put in the [data] of their
    logs. *)
Inductive SendValue :=
| SVString (s : option string)
| SVOptions (o : SendFileOptions)
| SVMessage (m : Message)
| SVParsedMessage (p : option ParsedMessage).

Definition SendLog : Type := list (string * SendValue).

(** [{ ...data, key: v }] on such data. *)
Fixpoint spread_send (obj : SendLog) (key : string) (v : SendValue) : SendLog :=
  match obj with
  | [] => [(key, v)]
  | (k, x) :: rest =>
      if String.eqb k key then (k, v) :: rest else (k, x) :: spread_send rest key v
  end.

(** The world of a send: the world of the logs and the calls of
    [client.sendMessage] so far. *)
Definition SendWorld : Type := (World (LogData SendLog) * list Outgoing)%type.

(** A method of the log at hand, run next to the calls. *)
Definition on_send_log (A : Type) (m : Js (LogState SendLog) A)
  : Js (SendWorld * Log SendLog) A :=
  fun env s =>
    match m env (fst (fst s), snd s) with
    | (o, (w', log')) => (o, ((w', snd (fst s)), log'))
    end.

(** [await this.client.sendMessage(chatId, content, options)] *)
Definition client_sendMessage (F : Type) (client : Client) (out : Outgoing)
  : Js (World F * list Outgoing) Message :=
  fun _ s => (sendMessage_reply client out, (fst s, snd s ++ [out])%list).

(** [await readFile(path)]: a [TypeError] when the path is [null], an
    error when there is no such file, else the content written last. *)
Definition readFile (F : Type) (path : option string) : Js (World F) F :=
  fun _ w =>
    match path with
    | None => (Thrown (Error "The path argument must be of type string"), w)
    | Some path =>
        match find (fun entry => String.eqb (fst entry) path) (files w) with
        | Some entry => (Returned (snd entry), w)
        | None => (Thrown (Error "ENOENT: no such file or directory"), w)
        end
    end.

(** The body of the loop of [Log.notify] for one number.  [encode] stands
    for the base64 text of the file, which [save] wrote as JSON. *)
Definition notify_number (T : Type) (client : Client) (encode : LogData T -> string)
    (this : Log T) (number : string)
  : Js (World (LogData T) * list Outgoing) unit :=
  try_catch
    (fileBuffer <- lift (readFile (errorFilePath this)) ;;
     let fileBase64 := encode fileBuffer in
     let media :=
       Media "application/json" fileBase64
         (Some (last (split "/" (template (errorFilePath this))) EmptyString)) in
     client_sendMessage client
       (mkOutgoing number media
          (mkSendOptions
             (Some ("Erro: " ++ ctx_type (context this) ++ " / "
                      ++ ctx_identifier (context this)))
             None None)) ;;;
     ret tt)
    (fun err => lift (logWithDate "log notify error:")).

(** [Log.notify] of [src/log.ts].  [NOTIFY_NUMBERS] is the variable of
    the environment of the process. *)
Definition notify (T : Type) (client : Client) (NOTIFY_NUMBERS : option string)
    (encode : LogData T -> string) (this : Log T)
  : Js (World (LogData T) * list Outgoing) unit :=
  let notifyNumbers := split "," (or_default_string NOTIFY_NUMBERS "555184449218") in
  for_of notifyNumbers (notify_number client encode this).

(** The call [notify] makes for one number when the file holds [content]
    and is called [name], and whether that call fails. *)
Definition notify_call (T : Type) (encode : LogData T -> string) (this : Log T)
    (content : LogData T) (name : string) (number : string) : Outgoing :=
  mkOutgoing number (Media "application/json" (encode content) (Some name))
    (mkSendOptions
       (Some ("Erro: " ++ ctx_type (context this) ++ " / "
                ++ ctx_identifier (context this)))
       None None).

Definition notify_failed (T : Type) (client : Client) (encode : LogData T -> string)
    (this : Log T) (content : LogData T) (name : string) (number : string) : bool :=
  match sendMessage_reply client (notify_call encode this content name number) with
  | Thrown _ => true
  | Returned _ => false
  end.

(** [v === s] for a value that is a string or [undefined]. *)
Definition strict_equal (v : option string) (s : string) : bool :=
  match v with
  | Some v => String.eqb v s
  | None => false
  end.

(** [!!v] for a value that is a string or [undefined]. *)
Definition truthy (v : option string) : bool :=
  match or_null_string v with
  | Some _ => true
  | None => false
  end.

Section Sends.
Variable this : Instance.
Variable client : Client.
(** [buffer.toString("base64")] and [formatToOpusAudio] of [./utils]. *)
Variable base64 : string -> string.
Variable formatToOpusAudio : string -> Outcome string.

Definition sendText (contact : string) (text : option string)
    (quotedMessageId : option string) : Js SendWorld (option ParsedMessage) :=
  env <- ask ;;
  local (new_Log (clientName this) "send-file" (string_of_Z (now env)) (now env)
           [("contact", SVString (Some contact)); ("text", SVString text);
            ("quotedMessageId", SVString quotedMessageId)])
    (try_catch
       (numberId <- of_outcome (getNumberId client contact) ;;
        let chatId :=
          match numberId with
          | Some numberId => or_null_string (Some (wid_serialized numberId))
          | None => None
          end in
        match chatId with
        | Some chatId =>
            sentMessage <- lift (client_sendMessage client
                                   (mkOutgoing chatId (Text text)
                                      (mkSendOptions None quotedMessageId None))) ;;
            on_send_log (setData (fun data => spread_send data "sentMessage"
                                                (SVMessage sentMessage))) ;;;
            parsedMessage <- of_outcome (messageParser env sentMessage) ;;
            on_send_log (setData (fun data => spread_send data "parsedMessage"
                                                (SVParsedMessage parsedMessage))) ;;;
            match parsedMessage with
            | Some parsed =>
                lift (lift (logWithDate (tag this ++ " Send text success => "
                                           ++ pm_ID parsed)))
            | None => ret tt
            end ;;;
            ret parsedMessage
        | None => ret None
        end)
       (fun err =>
          on_send_log (setError err) ;;;
          on_send_log save ;;;
          lift (lift (logWithDate (tag this ++ " Send text failure =>"))) ;;;
          ret None)).

Definition sendFile (options : SendFileOptions) : Js SendWorld (option ParsedMessage) :=
  env <- ask ;;
  local (new_Log (clientName this) "send-file" (string_of_Z (now env)) (now env)
           [("options", SVOptions options)])
    (try_catch
       (let formatedFile := base64 (sf_file options) in
        formatedFile <-
          (if strict_equal (sf_isAudio options) "true"
           then
             converted <- of_outcome (formatToOpusAudio (sf_file options)) ;;
             ret (base64 converted)
           else ret formatedFile) ;;
        let chatId := sf_contact options ++ "@c.us" in
        let media := Media (sf_mimeType options) formatedFile (sf_fileName options) in
        sentMessage <- lift (client_sendMessage client
                               (mkOutgoing chatId media
                                  (mkSendOptions (sf_caption options)
                                     (sf_quotedMessageId options)
                                     (Some (truthy (sf_isAudio options)))))) ;;
        on_send_log (setData (fun data => spread_send data "sentMessage"
                                            (SVMessage sentMessage))) ;;;
        parsedMessage <- of_outcome (messageParser env sentMessage) ;;
        on_send_log (setData (fun data => spread_send data "parsedMessage"
                                            (SVParsedMessage parsedMessage))) ;;;
        match parsedMessage with
        | Some parsed =>
            lift (lift (logWithDate (tag this ++ " Send file success => "
                                       ++ pm_ID parsed)))
        | None => ret tt
        end ;;;
        ret parsedMessage)
       (fun err =>
          on_send_log (setError err) ;;;
          on_send_log save ;;;
          lift (lift (logWithDate (tag this ++ " Send file failure  =>"))) ;;;
          ret None)).

(** [validateNumber]: [!!isValid && isValid.user], [false] as [None]. *)
Definition validateNumber (number : string) : Js SendWorld (option string) :=
  isValid <- of_outcome (getNumberId client number) ;;
  ret (match isValid with
       | Some isValid => Some (wid_user isValid)
       | None => None
       end).
End Sends.

(** The one call of [sendFile] for the data it sends. *)
Definition sendFile_call (options : SendFileOptions) (data : string) : Outgoing :=
  mkOutgoing (sf_contact options ++ "@c.us")
    (Media (sf_mimeType options) data (sf_fileName options))
    (mkSendOptions (sf_caption options) (sf_quotedMessageId options)
       (Some (truthy (sf_isAudio options)))).

(* ================================================================== *)
(** ** The variables of a contact and the text of a mass message *)

(** A value read from a row or an object: [undefined], [null] or a
    string. *)
Inductive JsVal :=
| JUndefined
| JNull
| JString (s : string).

(** The string a value turns into where a string is expected. *)
Definition to_string (v : JsVal) : string :=
  match v with
  | JUndefined => "undefined"
  | JNull => "null"
  | JString s => s
  end.

(** A row as the driver returns it: an object with one key for each
    column of the [SELECT] list. *)
Definition RowObject : Type := list (string * JsVal).

(** [obj.key]: [undefined] when the object has no such key. *)
Definition js_get (obj : RowObject) (key : string) : JsVal :=
  match find (fun entry => String.eqb (fst entry) key) obj with
  | Some entry => snd entry
  | None => JUndefined
  end.

(** A column of a row of the join: a string or [NULL]. *)
Definition sql_value (v : option string) : JsVal :=
  match v with
  | Some s => JString s
  | None => JNull
  end.

(** One row of [SELECT cli.RAZAO, cli.CPF_CNPJ, ct.NOME FROM
    w_clientes_numeros ct LEFT JOIN clientes cli ...]. *)
Record ContactRow := mkContactRow {
  c_RAZAO : option string;
  c_CPF_CNPJ : option string;
  c_NOME : option string
}.

Definition row_object (r : ContactRow) : RowObject :=
  [("RAZAO", sql_value (c_RAZAO r));
   ("CPF_CNPJ", sql_value (c_CPF_CNPJ r));
   ("NOME", sql_value (c_NOME r))].

(** The object [getContactVars] returns; the first field is
    [saudação_tempo] in the source. *)
Record ContactVars := mkContactVars {
  saudacao_tempo : string;
  cliente_razao : JsVal;
  cliente_cnpj : JsVal;
  contato_primeiro_nome : JsVal;
  contato_nome_completo : JsVal
}.

(** [currentSaudation] for [hour = new Date().getHours()]. *)
Definition currentSaudation (hour : Z) : string :=
  if (5 <=? hour) && (hour <? 12) then "Bom dia"
  else if (12 <=? hour) && (hour <? 18) then "Boa tarde"
  else "Boa noite".

Section ContactVars.
Variable F : Type.
(** The hour of the local clock and the rows the query returns for a
    number. *)
Variable hour : Z.
Variable contact_rows : string -> list ContactRow.

(** [await this.pool.query(SELECT_QUERY, [number])] *)
Definition pool_query_contact (number : string) : Js (World F) (list RowObject) :=
  fun env w =>
    if pool_up env
    then (Returned (map row_object (contact_rows number)), w)
    else (Thrown (Error "pool.query"), w).

Definition getContactVars (number : string) : Js (World F) ContactVars :=
  try_catch
    (let vars := mkContactVars (currentSaudation hour) (JString EmptyString)
                   (JString EmptyString) (JString EmptyString) (JString EmptyString) in
     rows <- pool_query_contact number ;;
     match nth_error rows 0 with
     | None => throw (Error "Cannot read properties of undefined (reading 'RAZAO')")
     | Some findContact =>
         let vars := mkContactVars (saudacao_tempo vars) (js_get findContact "RAZAO")
                       (cliente_cnpj vars) (contato_primeiro_nome vars)
                       (contato_nome_completo vars) in
         let vars := mkContactVars (saudacao_tempo vars) (cliente_razao vars)
                       (js_get findContact "CNPJ") (contato_primeiro_nome vars)
                       (contato_nome_completo vars) in
         match js_get findContact "NOME" with
         | JString nome =>
             let vars := mkContactVars (saudacao_tempo vars) (cliente_razao vars)
                           (cliente_cnpj vars)
                           (JString (template (nth_error (split " " nome) 0)))
                           (contato_nome_completo vars) in
             let vars := mkContactVars (saudacao_tempo vars) (cliente_razao vars)
                           (cliente_cnpj vars) (contato_primeiro_nome vars)
                           (JString nome) in
             ret vars
         | _ => throw (Error "Cannot read properties of null (reading 'split')")
         end
     end)
    (fun err => logWithDate "Get Contact vars err =>" ;;; throw err).
End ContactVars.

(** The string without its first [n] characters. *)
Fixpoint drop (n : nat) (s : string) : string :=
  match n, s with
  | O, _ => s
  | S k, String _ rest => drop k rest
  | S _, EmptyString => EmptyString
  end.

(** The replacement text of one match: [$$] stands for a dollar, [$&]
    for the match, [$`] for what precedes it and [$'] for what follows;
    any other text stands for itself. *)
Fixpoint substitution (rep matched before after : string) : string :=
  match rep with
  | EmptyString => EmptyString
  | String c rest =>
      if Ascii.eqb c "$"
      then match rest with
           | String d rest' =>
               if Ascii.eqb d "$" then String "$" (substitution rest' matched before after)
               else if Ascii.eqb d "&" then matched ++ substitution rest' matched before after
               else if Ascii.eqb d "`" then before ++ substitution rest' matched before after
               else if Ascii.eqb d "'" then after ++ substitution rest' matched before after
               else String c (substitution rest matched before after)
           | EmptyString => String c EmptyString
           end
      else String c (substitution rest matched before after)
  end.

(** [s.replaceAll(pat, rep)] for a pattern that is a non-empty string:
    the matches are found from left to right and do not overlap; [skip]
    counts the characters of the current match still to pass and [before]
    is the text already passed. *)
Fixpoint replace_from (pat rep : string) (skip : nat) (before s : string) : string :=
  match s with
  | EmptyString => EmptyString
  | String c rest =>
      match skip with
      | S k => replace_from pat rep k (before ++ String c EmptyString) rest
      | O =>
          if String.prefix pat s
          then substitution rep pat before (drop (String.length pat) s)
                 ++ replace_from pat rep (String.length pat - 1)
                      (before ++ String c EmptyString) rest
          else String c (replace_from pat rep 0 (before ++ String c EmptyString) rest)
      end
  end.

Definition replaceAll (pat rep s : string) : string :=
  replace_from pat rep 0 EmptyString s.

(** [replaceVars] of [sendMassMessages]. *)
Definition replaceVars (message : string) (vars : ContactVars) : string :=
  let message := replaceAll "@saudação_tempo" (saudacao_tempo vars) message in
  let message := replaceAll "@cliente_razao" (to_string (cliente_razao vars)) message in
  let message := replaceAll "@cliente_cnpj" (to_string (cliente_cnpj vars)) message in
  let message :=
    replaceAll "@contato_primeiro_nome" (to_string (contato_primeiro_nome vars)) message in
  let message :=
    replaceAll "@contato_nome_completo" (to_string (contato_nome_completo vars)) message in
  message.

(* ================================================================== *)
(** ** The router ([AppRouter]): the send route

    [instances.find], [decodeSafeURI], [mime.getType], the path
    [join(filesPath, "/media", name)] and the content [readFileSync] finds
    there are parameters.  The handler returns the response it sends, or
    [None] when it sends none. *)

(** What [sendMessage] reads of the request: [req.params], [req.body] and
    [req.file]. *)
Record SendMessageRequest := mkSendMessageRequest {
  p_from : string;
  p_to : string;
  b_text : option string;
  b_referenceId : option string;
  b_filename : option string;
  b_isAudio : option string;
  r_file : option UploadedFile
}.

Section SendRoute.
Variable find_instance : string -> option (Instance * Client).
Variable decodeSafeURI : string -> Outcome string.
Variable getType : string -> option string.
Variable media_path : string -> Outcome string.
Variable read_media : string -> Outcome string.
Variable base64 : string -> string.
Variable formatToOpusAudio : string -> Outcome string.

Definition route_sendMessage (req : SendMessageRequest) : Js SendWorld (option Response) :=
  try_catch
    (match find_instance (p_from req) with
     | None =>
         ret (Some (mkResponse 404 [] (JsonMessage "Whatsapp number isn't found ")))
     | Some (instance, client) =>
         match r_file req with
         | Some file =>
             fileName <- of_outcome (decodeSafeURI (originalname file)) ;;
             sentMessageWithFile <-
               sendFile instance client base64 formatToOpusAudio
                 (mkSendFileOptions (p_to req) (buffer file) (mimetype file)
                    (Some fileName) (b_text req) (b_referenceId req) (b_isAudio req)) ;;
             ret (Some (mkResponse 201 [] (JsonParsedMessage sentMessageWithFile)))
         | None =>
             match or_null_string (b_filename req) with
             | Some filename =>
                 filePath <- of_outcome (media_path filename) ;;
                 localfile <- of_outcome (read_media filePath) ;;
                 let mimeType := getType filePath in
                 let fileNameWithoutUUID := join "_" (tl (split "_" filename)) in
                 sentMessageWithFile <-
                   sendFile instance client base64 formatToOpusAudio
                     (mkSendFileOptions (p_to req) localfile
                        (or_default_string mimeType "unknown")
                        (Some fileNameWithoutUUID) (b_text req) None None) ;;
                 ret (Some (mkResponse 201 [] (JsonParsedMessage sentMessageWithFile)))
             | None =>
                 sentMessage <-
                   sendText instance client (p_to req) (b_text req) (b_referenceId req) ;;
                 ret (Some (mkResponse 201 [] (JsonParsedMessage sentMessage)))
             end
         end
     end)
    (fun err =>
       lift (logWithDate "[router.js] Send message failure =>") ;;;
       ret None).
End SendRoute.

(* ================================================================== *)
(** * Properties of the unified queue *)

Section UnifiedQueueFacts.
Variable Task : Type.
Implicit Types (q : Queue Task) (ev : QueueEvent Task) (evs : list (QueueEvent Task)).

Lemma queue_inv_new : queue_inv (@new_queue Task).
Proof. repeat split; simpl; auto. Qed.

Lemma nth_error_singleton (A : Type) (x : A) (i : nat) :
  nth_error [x] i = match i with O => Some x | S _ => None end.
Proof. destruct i as [|[|i]]; reflexivity. Qed.

Ltac split_inv :=
  unfold queue_inv; simpl; split; [|split; [|split]]; simpl; auto.

(** In a state of the invariant at most one task is under way, so the
    only event that settles a task settles that one. *)
Lemma running_at q i task act :
  queue_inv q -> nth_error (running q) i = Some (task, act) ->
  running q = [(task, act)] /\ i = O.
Proof.
  intros (_ & _ & Hone & _) Hnth.
  destruct (running q) as [|x [|y r]]; simpl in Hone; try lia.
  - destruct i; discriminate.
  - rewrite nth_error_singleton in Hnth. destruct i; inversion Hnth; auto.
Qed.

Lemma queue_inv_enqueue q task type id :
  queue_inv q -> queue_inv (enqueueProcessing task type id q).
Proof.
  destruct q as [uq p r e s d l].
  unfold enqueueProcessing, processUnifiedQueue; simpl.
  intros (Hfifo & Hdone & Hone & Hidle); simpl in *.
  destruct p; simpl.
  - split_inv; try discriminate.
    rewrite app_assoc, Hfifo; reflexivity.
  - destruct (Hidle eq_refl) as [-> ->]. simpl in *.
    rewrite app_nil_r in Hfifo, Hdone. subst e d.
    unfold while_loop; simpl.
    split_inv; try discriminate.
    rewrite app_nil_r; reflexivity.
Qed.

Lemma queue_inv_settle q task act :
  queue_inv q -> running q = [(task, act)] ->
  queue_inv (settle O task q) /\ processingUnifiedQueue q = true.
Proof.
  destruct q as [uq p r e s d l]; simpl.
  intros (Hfifo & Hdone & Hone & Hidle) ->; simpl in *.
  assert (Hp : p = true).
  { destruct p; auto. destruct (Hidle eq_refl); discriminate. }
  subst p. split; auto.
  unfold settle, without; split_inv; try discriminate.
  rewrite app_nil_r; auto.
Qed.

Lemma queue_inv_while_loop q act :
  queue_inv q -> running q = [] -> queue_inv (while_loop act q).
Proof.
  destruct q as [uq p r e s d l]; simpl.
  intros (Hfifo & Hdone & Hone & Hidle) ->; simpl in *.
  rewrite app_nil_r in Hdone. subst d.
  unfold while_loop; simpl.
  destruct uq as [|next rest]; split_inv.
  - apply app_nil_r.
  - rewrite <- app_assoc; auto.
  - intros ->. destruct (Hidle eq_refl); discriminate.
Qed.

Lemma queue_inv_step q ev : queue_inv q -> queue_inv (queue_step q ev).
Proof.
  intros Hinv.
  destruct ev as [task id | task id | i | i]; simpl.
  - apply queue_inv_enqueue, Hinv.
  - apply queue_inv_enqueue, Hinv.
  - destruct (nth_error (running q) i) as [[task act]|] eqn:Hnth; auto.
    destruct (running_at _ Hinv Hnth) as [Hrun ->].
    apply queue_inv_while_loop.
    + apply (queue_inv_settle Hinv Hrun).
    + simpl. rewrite Hrun. reflexivity.
  - destruct (nth_error (running q) i) as [[task act]|] eqn:Hnth; auto.
    destruct (running_at _ Hinv Hnth) as [Hrun ->].
    apply (queue_inv_settle Hinv Hrun).
Qed.

Lemma queue_inv_run evs : forall q, queue_inv q -> queue_inv (queue_run evs q).
Proof.
  induction evs as [|ev evs IH]; simpl; intros q Hinv; auto.
  apply IH, queue_inv_step, Hinv.
Qed.

(** Once the worker is gone with the flag set, an enqueue call only
    pushes, and no event starts, ends or resets anything. *)
Lemma stranded_step q ev :
  stranded q ->
  stranded (queue_step q ev)
  /\ started (queue_step q ev) = started q
  /\ unifiedQueue (queue_step q ev) = (unifiedQueue q ++ pushed [ev])%list.
Proof.
  destruct q as [uq p r e s d l]. intros [Hp Hr]; simpl in *. subst p r.
  destruct ev as [task id | task id | i | i]; simpl;
    unfold stranded, enqueueMessageProcessing, enqueueStatusProcessing,
      enqueueProcessing, processUnifiedQueue; simpl;
    try (destruct i; simpl); rewrite ?app_nil_r; auto.
Qed.

Lemma pushed_cons ev evs : pushed (ev :: evs) = (pushed [ev] ++ pushed evs)%list.
Proof. destruct ev; reflexivity. Qed.

Lemma stranded_run evs : forall q,
  stranded q ->
  stranded (queue_run evs q)
  /\ started (queue_run evs q) = started q
  /\ unifiedQueue (queue_run evs q) = (unifiedQueue q ++ pushed evs)%list.
Proof.
  induction evs as [|ev evs IH]; simpl; intros q Hq.
  - rewrite app_nil_r; auto.
  - destruct (stranded_step ev Hq) as (Hq' & Hs & Hu).
    destruct (IH _ Hq') as (H1 & H2 & H3).
    split; [exact H1|]. split; [congruence|].
    rewrite H3, Hu, <- app_assoc, <- pushed_cons. reflexivity.
Qed.

(** A task under way is rejected: nothing is pushed back, and the worker
    is gone with the flag set. *)
Lemma rejected_strands q i task act :
  queue_inv q -> nth_error (running q) i = Some (task, act) ->
  unifiedQueue (queue_step q (Rejected i)) = unifiedQueue q
  /\ started (queue_step q (Rejected i)) = started q
  /\ stranded (queue_step q (Rejected i)).
Proof.
  intros Hinv Hnth. simpl. rewrite Hnth.
  destruct (running_at _ Hinv Hnth) as [Hrun ->].
  destruct (queue_inv_settle Hinv Hrun) as [_ Hp].
  unfold stranded; simpl. rewrite Hrun. auto.
Qed.
End UnifiedQueueFacts.

(** C2.  Whatever the order of the enqueue calls and of the ends of the
    tasks, in the state reached from the empty queue: the tasks called so
    far are, in order, the first of those pushed, the others waiting in the
    list in the order they were pushed (first in, first out); the tasks over
    are, in order, the first of those called, and at most one task is under
    way; and when the flag is off (the worker saw the list empty and
    stopped) the list is empty and every task pushed is over. *)
Theorem unified_queue_fifo_one_at_a_time (Task : Type) (evs : list (QueueEvent Task)) :
  let q := queue_run evs new_queue in
  (started q ++ unifiedQueue q)%list = enqueued q
  /\ (settled q ++ map fst (running q))%list = started q
  /\ (List.length (running q) <= 1)%nat
  /\ (processingUnifiedQueue q = false ->
      unifiedQueue q = [] /\ running q = [] /\ settled q = enqueued q).
Proof.
  intros q.
  destruct (queue_inv_run evs (@queue_inv_new Task)) as (Hfifo & Hdone & Hone & Hidle).
  fold q in Hfifo, Hdone, Hone, Hidle.
  repeat (split; auto).
  - apply Hidle; assumption.
  - apply Hidle; assumption.
  - destruct (Hidle H) as [Hq Hr].
    rewrite Hq, app_nil_r in Hfifo. rewrite Hr in Hdone. simpl in Hdone.
    rewrite app_nil_r in Hdone. congruence.
Qed.

Lemma unified_queue_fifo_one_at_a_time_witness :
  let q := queue_run [EnqueueMessage "task1" "M1"; EnqueueStatus "task2" "M1";
                      Fulfilled 0; Fulfilled 0] new_queue in
  processingUnifiedQueue q = false
  /\ started q = ["task1"; "task2"]
  /\ settled q = enqueued q.
Proof.
  intros q.
  split; [reflexivity|]. split; [reflexivity|].
  apply (@unified_queue_fifo_one_at_a_time string
           [EnqueueMessage "task1" "M1"; EnqueueStatus "task2" "M1";
            Fulfilled 0; Fulfilled 0]).
  reflexivity.
Defined.

(** C3, as the code has it.  When a task that the worker awaits throws, the
    task is not pushed back on the list; the rejection leaves
    [processUnifiedQueue], which has no handler around [await task()], so
    the flag stays set, and whatever happens later no further task is
    called: the tasks pushed afterwards stay on the list. *)
Theorem rejected_task_ends_the_worker (Task : Type)
    (evs later : list (QueueEvent Task)) (i : nat) (task : Task) (act : Activation) :
  let q := queue_run evs new_queue in
  nth_error (running q) i = Some (task, act) ->
  let q' := queue_step q (Rejected i) in
  let q'' := queue_run later q' in
  unifiedQueue q' = unifiedQueue q
  /\ processingUnifiedQueue q'' = true
  /\ started q'' = started q
  /\ unifiedQueue q'' = (unifiedQueue q ++ pushed later)%list.
Proof.
  intros q Hnth q' q''.
  assert (Hinv : queue_inv q) by apply queue_inv_run, queue_inv_new.
  destruct (rejected_strands _ Hinv Hnth) as (Hsame & Hstarted & Hstranded).
  destruct (stranded_run later Hstranded) as ([Hflag _] & Hs & Hu).
  fold q' in Hsame, Hstarted, Hs, Hu. fold q'' in Hflag, Hs, Hu.
  repeat split; auto; congruence.
Qed.

Lemma rejected_task_ends_the_worker_witness :
  let q := queue_run [EnqueueMessage "task1" "M1"] new_queue in
  let q'' := queue_run [EnqueueStatus "task2" "M1"] (queue_step q (Rejected 0)) in
  nth_error (running q) 0 = Some ("task1", ("message", "M1"))
  /\ processingUnifiedQueue q'' = true
  /\ started q'' = ["task1"]
  /\ unifiedQueue q'' = ["task2"].
Proof.
  intros q q''.
  split; [reflexivity|].
  apply (@rejected_task_ends_the_worker string [EnqueueMessage "task1" "M1"]
           [EnqueueStatus "task2" "M1"] 0%nat "task1" ("message", "M1")).
  reflexivity.
Defined.

(** C3 as stated fails: after [task1] throws, in no continuation is the
    flag reset or [task2], enqueued afterwards, called. *)
Lemma rejected_task_flag_never_reset :
  let q := queue_run [EnqueueMessage "task1" "M1"; Rejected 0;
                      EnqueueStatus "task2" "M1"] new_queue in
  ~ exists later,
      processingUnifiedQueue (queue_run later q) = false
      \/ In "task2" (started (queue_run later q)).
Proof.
  intros q [later H].
  assert (Hq : stranded q) by (split; reflexivity).
  destruct (stranded_run later Hq) as ([Hflag _] & Hs & _).
  destruct H as [H | H].
  - rewrite Hflag in H. discriminate.
  - rewrite Hs in H. simpl in H. destruct H as [H | []]. discriminate.
Qed.

(* ================================================================== *)
(** * The mapping of acknowledgement codes *)

Lemma js_index_statuses_outside (ack : Z) :
  ack < 0 \/ 5 <= ack -> js_index statuses ack = None.
Proof.
  intros H. unfold js_index.
  destruct (Z.leb_spec 0 ack) as [Hpos|Hneg]; auto.
  apply nth_error_None. simpl. lia.
Qed.

(** C5.  For every integer code the mapping gives a status: the codes 0 to
    4 give PENDING, SENT, RECEIVED, READ and PLAYED, every other code, the
    negative ones and those from 5 on, gives ERROR. *)
Theorem ack_status_table (ack : Z) :
  ack_status ack =
  match ack with
  | 0 => "PENDING"
  | 1 => "SENT"
  | 2 => "RECEIVED"
  | 3 => "READ"
  | 4 => "PLAYED"
  | _ => "ERROR"
  end.
Proof.
  destruct (Z_lt_le_dec ack 0) as [Hneg|Hpos].
  - unfold ack_status. rewrite js_index_statuses_outside by lia.
    destruct ack; try lia; reflexivity.
  - destruct (Z_lt_le_dec ack 5) as [Hin|Hout].
    + assert (Hcases : ack = 0 \/ ack = 1 \/ ack = 2 \/ ack = 3 \/ ack = 4) by lia.
      destruct Hcases as [-> | [-> | [-> | [-> | ->]]]]; reflexivity.
    + unfold ack_status. rewrite js_index_statuses_outside by lia.
      destruct ack as [|p|p]; try lia.
      destruct p as [[p|p|]|[p|[p|p|]|]|]; try reflexivity; lia.
Qed.

(* ================================================================== *)
(** * The persistence gateway *)

Section Gateway.
Variable this : Instance.

(** What a call of [updateMessage] does, database up or down: it
    returns, and only the table and the console change. *)
Lemma updateMessage_run id u env (w : W) :
  updateMessage this id u env w =
  (Returned tt,
   if db_up env
   then mkWorld (UPDATE (or_null_string (u_STATUS u)) (u_SYNC_STATUS u)
                        (u_SYNC_MESSAGE u) id (messages w))
                (sent w) (files w)
                (console w ++ [tag this ++ " Message updated successfully => " ++ id])
   else mkWorld (messages w) (sent w) (files w)
                (console w ++ [tag this ++ " Update message failure =>"])).
Proof.
  unfold updateMessage, try_catch, bind, getDBConnection, execute, logWithDate, modify.
  destruct (db_up env); reflexivity.
Qed.

Lemma UPDATE_no_match s ss sm id rows :
  (forall r, In r rows -> ID r <> id) -> UPDATE s ss sm id rows = rows.
Proof.
  unfold UPDATE. induction rows as [|r rows IH]; simpl; intros Hno; auto.
  destruct (String.eqb_spec (ID r) id) as [Heq|Hne].
  - exfalso. apply (Hno r); auto.
  - f_equal. apply IH. intros r' Hin. apply Hno. auto.
Qed.

Lemma UPDATE_retains s ss sm id rows :
  Forall2 (fun r r' =>
             ID r' = ID r
             /\ (s = None -> STATUS r' = STATUS r)
             /\ (ss = None -> SYNC_STATUS r' = SYNC_STATUS r)
             /\ (sm = None -> SYNC_MESSAGE r' = SYNC_MESSAGE r))
          rows (UPDATE s ss sm id rows).
Proof.
  unfold UPDATE. induction rows as [|r rows IH]; simpl; constructor; auto.
  destruct (String.eqb (ID r) id); simpl; repeat split; auto; intros ->; reflexivity.
Qed.
End Gateway.

Lemma Forall2_same (A : Type) (R : A -> A -> Prop) (l : list A) :
  (forall a, R a a) -> Forall2 R l l.
Proof. intros HR. induction l; constructor; auto. Qed.

(** C7.  After a call of [updateMessage], whatever the identifier, the
    update object and the state of the database, every row of the table is
    still there with its identifier, and each of STATUS, SYNC_STATUS and
    SYNC_MESSAGE that the update object leaves out holds the value it held
    before; in particular an update of STATUS alone leaves both flags of
    every row as they were. *)
Theorem updateMessage_omitted_fields_retained
    (this : Instance) (id : string) (u : MessageUpdate) (env : Env) (w : W) :
  let w' := snd (updateMessage this id u env w) in
  Forall2 (fun r r' =>
             ID r' = ID r
             /\ (u_STATUS u = None -> STATUS r' = STATUS r)
             /\ (u_SYNC_STATUS u = None -> SYNC_STATUS r' = SYNC_STATUS r)
             /\ (u_SYNC_MESSAGE u = None -> SYNC_MESSAGE r' = SYNC_MESSAGE r))
          (messages w) (messages w')
  /\ (u = mkUpdate None None (Some "READ") ->
      Forall2 (fun r r' =>
                 SYNC_MESSAGE r' = SYNC_MESSAGE r /\ SYNC_STATUS r' = SYNC_STATUS r)
              (messages w) (messages w')).
Proof.
  intros w'. unfold w'. rewrite updateMessage_run. simpl.
  assert (Hall : Forall2 (fun r r' =>
             ID r' = ID r
             /\ (u_STATUS u = None -> STATUS r' = STATUS r)
             /\ (u_SYNC_STATUS u = None -> SYNC_STATUS r' = SYNC_STATUS r)
             /\ (u_SYNC_MESSAGE u = None -> SYNC_MESSAGE r' = SYNC_MESSAGE r))
          (messages w)
          (messages (if db_up env
                     then mkWorld (UPDATE (or_null_string (u_STATUS u)) (u_SYNC_STATUS u)
                                     (u_SYNC_MESSAGE u) id (messages w))
                            (sent w) (files w)
                            (console w ++ [tag this ++ " Message updated successfully => " ++ id])
                     else mkWorld (messages w) (sent w) (files w)
                            (console w ++ [tag this ++ " Update message failure =>"])))).
  { destruct (db_up env); simpl.
    - eapply Forall2_impl; [|apply UPDATE_retains].
      intros r r' (Hid & Hs & Hss & Hsm). repeat split; auto.
      intros Hnone. apply Hs. rewrite Hnone. reflexivity.
    - apply Forall2_same. auto. }
  split; [exact Hall|].
  intros ->. eapply Forall2_impl; [|exact Hall].
  simpl. intros r r' (_ & _ & Hss & Hsm). auto.
Qed.

Lemma updateMessage_omitted_fields_retained_witness :
  let w := world_of [stored "M1" (Some "SENT") true false] in
  let w' := snd (updateMessage acme "M1" (mkUpdate None None (Some "READ"))
                   (surroundings true (fun _ => true) []) w) in
  messages w' = [stored "M1" (Some "READ") true false]
  /\ Forall2 (fun r r' =>
                SYNC_MESSAGE r' = SYNC_MESSAGE r /\ SYNC_STATUS r' = SYNC_STATUS r)
             (messages w) (messages w').
Proof.
  intros w w'. split; [reflexivity|].
  apply (@updateMessage_omitted_fields_retained acme "M1"
           (mkUpdate None None (Some "READ")) (surroundings true (fun _ => true) []) w).
  reflexivity.
Defined.

(** C8.  When no row of the table holds the identifier, [updateMessage]
    returns without throwing and leaves the table as it is: no row is
    added, no row is changed; no request is sent and no file is written. *)
Theorem updateMessage_unknown_id_noop
    (this : Instance) (id : string) (u : MessageUpdate) (env : Env) (w : W) :
  (forall r, In r (messages w) -> ID r <> id) ->
  let result := updateMessage this id u env w in
  fst result = Returned tt
  /\ messages (snd result) = messages w
  /\ sent (snd result) = sent w
  /\ files (snd result) = files w.
Proof.
  intros Hno result. unfold result. rewrite updateMessage_run. simpl.
  destruct (db_up env); simpl; repeat split; auto.
  apply UPDATE_no_match, Hno.
Qed.

Lemma updateMessage_unknown_id_noop_witness :
  let w := world_of [stored "M1" (Some "SENT") true false] in
  let result := updateMessage acme "M-missing" (mkUpdate (Some true) None None)
                  (surroundings true (fun _ => true) []) w in
  fst result = Returned tt
  /\ messages (snd result) = [stored "M1" (Some "SENT") true false]
  /\ sent (snd result) = []
  /\ files (snd result) = [].
Proof.
  apply (@updateMessage_unknown_id_noop acme "M-missing" (mkUpdate (Some true) None None)
           (surroundings true (fun _ => true) [])
           (world_of [stored "M1" (Some "SENT") true false])).
  simpl. intros r [<- | []]. discriminate.
Defined.

Section Upsert.
Variable this : Instance.

(** What a call of [saveMessage] does, database up or down: it returns;
    the log it keeps is not finished, so on failure nothing is written
    to a file. *)
Lemma saveMessage_run message from env (w : W) :
  saveMessage this message from env w =
  (Returned tt,
   if db_up env
   then mkWorld (INSERT (saveMessage_params this message from) (messages w))
                (sent w) (files w)
                (console w ++ [tag this ++ " Message saved successfully => " ++ pm_ID message])
   else mkWorld (messages w) (sent w) (files w)
                ((console w ++ ["log save error:"])
                   ++ [tag this ++ " Save message failure => " ++ pm_ID message])).
Proof.
  unfold saveMessage, bind, ask, local, try_catch, lift, getDBConnection; simpl.
  destruct (db_up env); reflexivity.
Qed.

Lemma rows_with_absent id rows : ~ In id (map ID rows) -> rows_with id rows = [].
Proof.
  unfold rows_with. induction rows as [|r rows IH]; simpl; intros Hno; auto.
  destruct (String.eqb_spec (ID r) id) as [Heq|Hne].
  - exfalso. apply Hno. auto.
  - apply IH. intros Hin. apply Hno. auto.
Qed.

(** After the statement exactly one row holds the identifier: the one
    that held it, updated, or the new one. *)
Lemma rows_with_INSERT values rows :
  unique_key rows ->
  rows_with (ID values) (INSERT values rows) =
  [match find (duplicate_key values) rows with
   | Some r => ON_DUPLICATE_KEY_UPDATE values r
   | None => values
   end].
Proof.
  unfold unique_key.
  induction rows as [|r rows IH]; intros Huniq.
  - unfold rows_with; simpl. rewrite String.eqb_refl. reflexivity.
  - inversion Huniq as [|x l Hnotin Hrest]; subst.
    cbn [INSERT find].
    destruct (duplicate_key values r) eqn:Hdup.
    + unfold duplicate_key in Hdup.
      unfold rows_with. cbn [filter ON_DUPLICATE_KEY_UPDATE ID]. rewrite Hdup.
      f_equal. apply rows_with_absent.
      apply String.eqb_eq in Hdup. rewrite <- Hdup. exact Hnotin.
    + unfold duplicate_key in Hdup.
      unfold rows_with. cbn [filter]. rewrite Hdup. apply IH, Hrest.
Qed.

Lemma In_ID_INSERT id values rows :
  In id (map ID (INSERT values rows)) -> In id (map ID rows) \/ id = ID values.
Proof.
  induction rows as [|r rows IH]; simpl.
  - intros [<- | []]; auto.
  - destruct (duplicate_key values r); simpl.
    + intros [<- | Hin]; auto.
    + intros [<- | Hin]; auto. destruct (IH Hin); auto.
Qed.

(** The statement keeps the key constraint. *)
Lemma unique_key_INSERT values rows :
  unique_key rows -> unique_key (INSERT values rows).
Proof.
  unfold unique_key. induction rows as [|r rows IH]; simpl; intros Huniq.
  - constructor; [intros []|constructor].
  - inversion Huniq as [|x l Hnotin Hrest]; subst.
    unfold duplicate_key.
    destruct (String.eqb_spec (ID r) (ID values)) as [Heq|Hne]; simpl.
    + constructor; assumption.
    + constructor; [|apply IH, Hrest].
      intros Hin. destruct (In_ID_INSERT _ _ _ Hin) as [Hold|Hnew]; auto.
Qed.

(** The statement leaves the rows that hold another identifier. *)
Lemma rows_with_INSERT_other id values rows :
  id <> ID values -> rows_with id (INSERT values rows) = rows_with id rows.
Proof.
  unfold rows_with. intros Hne.
  induction rows as [|r rows IH]; simpl.
  - rewrite (proj2 (String.eqb_neq _ _)); auto.
  - unfold duplicate_key.
    destruct (String.eqb_spec (ID r) (ID values)) as [Heq|Hne']; simpl.
    + rewrite (proj2 (String.eqb_neq (ID r) id)); congruence.
    + rewrite IH. reflexivity.
Qed.

Lemma find_duplicate_key values r rows :
  unique_key rows -> In r rows -> ID r = ID values ->
  find (duplicate_key values) rows = Some r.
Proof.
  unfold unique_key, duplicate_key.
  induction rows as [|x rows IH]; simpl; intros Huniq Hin Hid; [contradiction|].
  inversion Huniq as [|y l Hnotin Hrest]; subst.
  destruct Hin as [-> | Hin].
  - rewrite (proj2 (String.eqb_eq _ _) Hid). reflexivity.
  - destruct (String.eqb_spec (ID x) (ID values)) as [Heq|Hne]; auto.
    exfalso. apply Hnotin. rewrite Heq, <- Hid. apply in_map, Hin.
Qed.
End Upsert.

Lemma rows_with_single id rows r :
  rows_with id rows = [r] -> In r rows /\ ID r = id.
Proof.
  intros Hrows.
  assert (Hin : In r (rows_with id rows)) by (rewrite Hrows; simpl; auto).
  apply filter_In in Hin. destruct Hin as [Hin Heq].
  apply String.eqb_eq in Heq. auto.
Qed.

(** C6, as the code has it.  With the database up and a table that
    satisfies the key constraint, after two calls of [saveMessage] with the
    same identifier the table holds exactly one row with that identifier: the
    row the first call left, updated by the second.  Its body is the
    parameter bound by the second call, [message.MENSAGEM || null]: the
    second body when that is a non-empty string, NULL otherwise. *)
Theorem saveMessage_twice_one_row
    (this : Instance) (m1 m2 : ParsedMessage) (from1 from2 : string)
    (env1 env2 : Env) (w : W) :
  db_up env1 = true -> db_up env2 = true ->
  unique_key (messages w) ->
  pm_ID m1 = pm_ID m2 ->
  let w1 := snd (saveMessage this m1 from1 env1 w) in
  let w2 := snd (saveMessage this m2 from2 env2 w1) in
  exists r1 r2,
    rows_with (pm_ID m1) (messages w1) = [r1]
    /\ rows_with (pm_ID m2) (messages w2) = [r2]
    /\ r2 = ON_DUPLICATE_KEY_UPDATE (saveMessage_params this m2 from2) r1
    /\ MENSAGEM r2 = or_null_string (pm_MENSAGEM m2)
    /\ (forall body, pm_MENSAGEM m2 = Some body -> body <> EmptyString ->
        MENSAGEM r2 = Some body)
    /\ unique_key (messages w2).
Proof.
  intros Hup1 Hup2 Huniq Hid w1 w2. unfold w2, w1.
  rewrite !saveMessage_run, Hup1. cbn [snd messages]. rewrite Hup2. cbn [snd messages].
  set (v1 := saveMessage_params this m1 from1).
  set (v2 := saveMessage_params this m2 from2).
  pose proof (rows_with_INSERT v1 Huniq) as H1.
  pose proof (unique_key_INSERT v1 Huniq) as Huniq1.
  pose proof (rows_with_INSERT v2 Huniq1) as H2.
  change (ID v1) with (pm_ID m1) in H1. change (ID v2) with (pm_ID m2) in H2.
  destruct (rows_with_single _ _ H1) as [Hin1 Hid1].
  rewrite (@find_duplicate_key v2 _ _ Huniq1 Hin1) in H2
    by (rewrite Hid1; exact Hid).
  eexists; eexists.
  split; [exact H1|]. split; [exact H2|]. split; [reflexivity|].
  split; [reflexivity|]. split.
  - intros body Hbody Hne. cbn [ON_DUPLICATE_KEY_UPDATE MENSAGEM v2 saveMessage_params].
    rewrite Hbody. simpl. destruct body; [contradiction|reflexivity].
  - apply unique_key_INSERT, Huniq1.
Qed.

Lemma saveMessage_twice_one_row_witness :
  let env := surroundings true (fun _ => true) [] in
  let w1 := snd (saveMessage acme (text_message "M1" (Some "hi")) "5511988887777"
                   env (world_of [])) in
  let w2 := snd (saveMessage acme (text_message "M1" (Some "hello")) "5511988887777"
                   env w1) in
  exists r1 r2,
    rows_with "M1" (messages w1) = [r1]
    /\ rows_with "M1" (messages w2) = [r2]
    /\ r2 = ON_DUPLICATE_KEY_UPDATE
              (saveMessage_params acme (text_message "M1" (Some "hello")) "5511988887777") r1
    /\ MENSAGEM r2 = Some "hello"
    /\ (forall body, Some "hello" = Some body -> body <> EmptyString ->
        MENSAGEM r2 = Some body)
    /\ unique_key (messages w2).
Proof.
  apply (@saveMessage_twice_one_row acme
           (text_message "M1" (Some "hi")) (text_message "M1" (Some "hello"))
           "5511988887777" "5511988887777"
           (surroundings true (fun _ => true) []) (surroundings true (fun _ => true) [])
           (world_of [])).
  - reflexivity.
  - reflexivity.
  - constructor.
  - reflexivity.
Defined.

(** C6 as stated fails on an empty second body: the row then holds NULL,
    not the (empty) body of the second call. *)
Lemma saveMessage_empty_body_stored_null :
  let env := surroundings true (fun _ => true) [] in
  let w1 := snd (saveMessage acme (text_message "M1" (Some "hi")) "5511988887777"
                   env (world_of [])) in
  let w2 := snd (saveMessage acme (text_message "M1" (Some EmptyString)) "5511988887777"
                   env w1) in
  ~ exists r,
      rows_with "M1" (messages w2) = [r]
      /\ MENSAGEM r = pm_MENSAGEM (text_message "M1" (Some EmptyString)).
Proof.
  intros env w1 w2 [r [Hrow Hbody]].
  vm_compute in Hrow. inversion Hrow; subst r. discriminate Hbody.
Qed.

(** C9.  With the database up and a table that satisfies the key
    constraint, a call of [saveMessage] whose identifier is held by a row
    leaves that row, updated, as the only one with the identifier, and both
    its flags are false whatever they were; the row keeps its INSTANCE, and
    the [SELECT] of the sweep of that instance returns it. *)
Theorem saveMessage_existing_row_unsettled
    (this : Instance) (message : ParsedMessage) (from : string)
    (env : Env) (w : W) (r : Row) :
  db_up env = true ->
  unique_key (messages w) ->
  In r (messages w) ->
  ID r = pm_ID message ->
  let w' := snd (saveMessage this message from env w) in
  let r' := ON_DUPLICATE_KEY_UPDATE (saveMessage_params this message from) r in
  rows_with (pm_ID message) (messages w') = [r']
  /\ SYNC_MESSAGE r' = false
  /\ SYNC_STATUS r' = false
  /\ INSTANCE r' = INSTANCE r
  /\ In r' (filter (unsynced (INSTANCE r)) (messages w')).
Proof.
  intros Hup Huniq Hin Hid w' r'. unfold w'.
  rewrite saveMessage_run, Hup. cbn [snd messages].
  set (values := saveMessage_params this message from) in *.
  pose proof (rows_with_INSERT values Huniq) as Hrows.
  rewrite (@find_duplicate_key values _ _ Huniq Hin Hid) in Hrows.
  change (ID values) with (pm_ID message) in Hrows. fold r' in Hrows.
  split; [exact Hrows|]. repeat split.
  apply filter_In. split.
  - apply (rows_with_single _ _ Hrows).
  - unfold unsynced. simpl. apply String.eqb_refl.
Qed.

Lemma saveMessage_existing_row_unsettled_witness :
  let w := world_of [stored "M1" (Some "READ") true true] in
  let w' := snd (saveMessage acme (text_message "M1" (Some "hi")) "5511988887777"
                   (surroundings true (fun _ => true) []) w) in
  let r' := stored "M1" (Some "RECEIVED") false false in
  rows_with "M1" (messages w') = [r']
  /\ SYNC_MESSAGE r' = false
  /\ SYNC_STATUS r' = false
  /\ INSTANCE r' = "acme_5511900000000"
  /\ In r' (filter (unsynced "acme_5511900000000") (messages w')).
Proof.
  apply (@saveMessage_existing_row_unsettled acme (text_message "M1" (Some "hi"))
           "5511988887777" (surroundings true (fun _ => true) [])
           (world_of [stored "M1" (Some "READ") true true])
           (stored "M1" (Some "READ") true true)).
  - reflexivity.
  - repeat constructor. intros [].
  - simpl. auto.
  - reflexivity.
Defined.

(* ================================================================== *)
(** * The logs *)

(** [save] on a log that was not finished: the error thrown inside is
    caught, one line goes to the console, no file is written and the log
    object stays as it is. *)
Lemma save_unfinished (T : Type) (log : Log T) env (w : World (LogData T)) :
  finishedAt log = None ->
  save env (w, log) =
  (Returned tt,
   (mkWorld (messages w) (sent w) (files w) (console w ++ ["log save error:"]), log)).
Proof.
  intros Hnone. unfold save, try_catch, bind, get; simpl. rewrite Hnone. reflexivity.
Qed.

Section Preserves.
Variables (S : Type) (I : S -> Prop).

Lemma preserves_ret (A : Type) (a : A) : preserves I (ret a).
Proof. intros env s Hs. exact Hs. Qed.

Lemma preserves_throw (A : Type) e : preserves I (throw (A := A) e).
Proof. intros env s Hs. exact Hs. Qed.

Lemma preserves_of_outcome (A : Type) (o : Outcome A) : preserves I (of_outcome o).
Proof. intros env s Hs. exact Hs. Qed.

Lemma preserves_ask : preserves I ask.
Proof. intros env s Hs. exact Hs. Qed.

Lemma preserves_bind (A B : Type) (m : Js S A) (k : A -> Js S B) :
  preserves I m -> (forall a, preserves I (k a)) -> preserves I (bind m k).
Proof.
  intros Hm Hk env s Hs. unfold bind.
  specialize (Hm env s Hs).
  destruct (m env s) as [[a|e] s']; simpl in *; auto.
  apply Hk, Hm.
Qed.

Lemma preserves_try_catch (A : Type) (body : Js S A) handler :
  preserves I body -> (forall e, preserves I (handler e)) ->
  preserves I (try_catch body handler).
Proof.
  intros Hb Hh env s Hs. unfold try_catch.
  specialize (Hb env s Hs).
  destruct (body env s) as [[a|e] s']; simpl in *; auto.
  apply Hh, Hb.
Qed.

Lemma preserves_catch_null (body : Js S unit) :
  preserves I body -> preserves I (catch_null body).
Proof.
  intros Hb. apply preserves_try_catch; auto. intros e. apply preserves_ret.
Qed.

Lemma preserves_for_of (A : Type) (xs : list A) (body : A -> Js S unit) :
  (forall x, preserves I (body x)) -> preserves I (for_of xs body).
Proof.
  intros Hb. induction xs as [|x xs IH]; simpl.
  - apply preserves_ret.
  - apply preserves_bind; auto.
Qed.

Lemma preserves_lift (L A : Type) (J : L -> Prop) (m : Js S A) :
  preserves I m -> preserves (fun sl => I (fst sl) /\ J (snd sl)) (lift (L := L) m).
Proof.
  intros Hm env [s l] [Hs Hl]. unfold lift; simpl.
  specialize (Hm env s Hs). destruct (m env s) as [o s']; simpl in *. auto.
Qed.

Lemma preserves_local (L A : Type) (J : L -> Prop) (init : L) (m : Js (S * L) A) :
  J init -> preserves (fun sl => I (fst sl) /\ J (snd sl)) m ->
  preserves I (local init m).
Proof.
  intros Hinit Hm env s Hs. unfold local.
  specialize (Hm env (s, init) (conj Hs Hinit)).
  destruct (m env (s, init)) as [o [s' l']]; simpl in *. apply Hm.
Qed.
End Preserves.

Section Returns.
Variable S : Type.

Lemma returns_bind (A B : Type) (m : Js S A) (k : A -> Js S B) :
  returns m -> (forall a, returns (k a)) -> returns (bind m k).
Proof.
  intros Hm Hk env s. unfold bind.
  destruct (Hm env s) as [a Ha].
  destruct (m env s) as [[a'|e] s']; simpl in *; [|discriminate].
  apply Hk.
Qed.

Lemma returns_try_catch (A : Type) (body : Js S A) handler :
  (forall e, returns (handler e)) -> returns (try_catch body handler).
Proof.
  intros Hh env s. unfold try_catch.
  destruct (body env s) as [[a|e] s']; simpl; [eauto|apply Hh].
Qed.

Lemma returns_lift (L A : Type) (m : Js S A) : returns m -> returns (lift (L := L) m).
Proof.
  intros Hm env [s l]. unfold lift; simpl.
  destruct (Hm env s) as [a Ha]. destruct (m env s) as [o s']; simpl in *. eauto.
Qed.

Lemma returns_local (L A : Type) (init : L) (m : Js (S * L) A) :
  returns m -> returns (local init m).
Proof.
  intros Hm env s. unfold local.
  destruct (Hm env (s, init)) as [a Ha].
  destruct (m env (s, init)) as [o [s' l']]; simpl in *. eauto.
Qed.

Lemma returns_modify (f : S -> S) : returns (modify f).
Proof. intros env s. exists tt. reflexivity. Qed.

Lemma returns_ask : returns (ask (S := S)).
Proof. intros env s. exists env. reflexivity. Qed.
End Returns.

Section KeepsFiles.
Variable fs : list (string * LogData Any).

Ltac by_cases :=
  let env := fresh "env" in
  let w := fresh "w" in
  let Hw := fresh "Hw" in
  intros env w Hw; unfold files_are in *; cbv beta delta
    [logWithDate console_error getDBConnection execute execute_select axios
     pool_query_w_mensagens modify mkdirp]; simpl;
  repeat match goal with
         | |- context [if ?b then _ else _] => destruct b; simpl
         end;
  exact Hw.

Lemma logWithDate_keeps line : preserves (files_are fs) (logWithDate line).
Proof. by_cases. Qed.

Lemma console_error_keeps value : preserves (files_are fs) (console_error value).
Proof. by_cases. Qed.

Lemma getDBConnection_keeps : preserves (files_are fs) getDBConnection.
Proof. by_cases. Qed.

Lemma execute_keeps statement : preserves (files_are fs) (execute statement).
Proof. by_cases. Qed.

Lemma execute_select_keeps where_ : preserves (files_are fs) (execute_select where_).
Proof. by_cases. Qed.

Lemma axios_keeps r : preserves (files_are fs) (axios r).
Proof. by_cases. Qed.

Lemma pool_query_keeps id : preserves (files_are fs) (pool_query_w_mensagens id).
Proof. by_cases. Qed.

Lemma lift_keeps (A : Type) (m : Js W A) :
  preserves (files_are fs) m -> preserves (files_are_unfinished fs) (lift m).
Proof.
  intros Hm.
  exact (@preserves_lift W (files_are fs) (Log Any) A
           (fun l => finishedAt l = None) m Hm).
Qed.

Lemma local_keeps (A : Type) (init : Log Any) (m : Js (LogState Any) A) :
  finishedAt init = None ->
  preserves (files_are_unfinished fs) m -> preserves (files_are fs) (local init m).
Proof.
  intros Hinit Hm.
  exact (@preserves_local W (files_are fs) (Log Any) A
           (fun l => finishedAt l = None) init m Hinit Hm).
Qed.

Lemma setData_keeps cb : preserves (files_are_unfinished fs) (setData cb).
Proof. intros env [w l] H. exact H. Qed.

Lemma setError_keeps err : preserves (files_are_unfinished fs) (setError err).
Proof. intros env [w l] H. exact H. Qed.

Lemma save_keeps : preserves (files_are_unfinished fs) save.
Proof.
  intros env [w l] [Hw Hl]. simpl in Hl.
  rewrite (save_unfinished l env w Hl). split; assumption.
Qed.

(** One step of a proof that a computation keeps the files. *)
Ltac keeps_step :=
  first
    [ apply preserves_ret | apply preserves_throw | apply preserves_of_outcome
    | apply preserves_ask
    | apply logWithDate_keeps | apply console_error_keeps
    | apply getDBConnection_keeps | apply execute_keeps
    | apply execute_select_keeps | apply axios_keeps | apply pool_query_keeps
    | apply setData_keeps | apply setError_keeps | apply save_keeps
    | apply lift_keeps
    | apply preserves_catch_null
    | apply preserves_for_of; intro
    | apply preserves_bind; [|intro]
    | apply preserves_try_catch; [|intro]
    | apply local_keeps; [reflexivity|]
    | match goal with
      | |- preserves _ (if ?b then _ else _) => destruct b
      | |- preserves _ (match ?x with Some _ => _ | None => _ end) => destruct x
      end ].

Variable this : Instance.

Lemma updateMessage_keeps id u : preserves (files_are fs) (updateMessage this id u).
Proof. unfold updateMessage. repeat keeps_step. Qed.

Lemma saveMessage_keeps message from :
  preserves (files_are fs) (saveMessage this message from).
Proof. unfold saveMessage. repeat keeps_step. Qed.

Lemma onReceiveMessage_task_keeps message :
  preserves (files_are fs) (onReceiveMessage_task this message).
Proof.
  unfold onReceiveMessage_task.
  repeat first [ apply saveMessage_keeps | apply updateMessage_keeps | keeps_step ].
Qed.

Lemma onReceiveMessageStatus_task_keeps message :
  preserves (files_are fs) (onReceiveMessageStatus_task this message).
Proof.
  unfold onReceiveMessageStatus_task.
  repeat first [ apply updateMessage_keeps | keeps_step ].
Qed.

Lemma syncMessagesWithServer_keeps :
  preserves (files_are fs) (syncMessagesWithServer this).
Proof.
  unfold syncMessagesWithServer, sync_row.
  repeat first [ apply updateMessage_keeps | keeps_step ].
Qed.
End KeepsFiles.

Lemma save_returns (T : Type) : returns (save (T := T)).
Proof.
  unfold save. apply returns_try_catch. intros e.
  apply returns_lift. unfold logWithDate. apply returns_modify.
Qed.

Lemma onReceiveMessage_task_returns this message :
  returns (onReceiveMessage_task this message).
Proof.
  unfold onReceiveMessage_task.
  apply returns_bind; [apply returns_ask|]. intros env.
  apply returns_local, returns_try_catch. intros e.
  apply returns_bind; [apply returns_modify|]. intros _.
  apply returns_bind; [apply save_returns|]. intros _.
  apply returns_bind; [apply returns_lift, returns_modify|]. intros _.
  apply returns_lift. unfold logWithDate. apply returns_modify.
Qed.

Lemma updateMessage_returns this id u : returns (updateMessage this id u).
Proof.
  unfold updateMessage. apply returns_try_catch. intros e. apply returns_modify.
Qed.

Lemma onReceiveMessageStatus_task_returns this message :
  returns (onReceiveMessageStatus_task this message).
Proof.
  unfold onReceiveMessageStatus_task. apply returns_try_catch. intros e.
  apply returns_bind; [apply returns_modify|]. intros _.
  apply updateMessage_returns.
Qed.

(** A log that was finished is saved, when the file system answers and
    [LOGS_PATH] is set: [save] does write files. *)
Example finished_log_is_saved :
  let env := surroundings true (fun _ => true) [] in
  let log := new_Log "acme" "send-file" "M1" 1700000000400 ([] : Any) in
  let result := bind finish (fun _ => save) env (world_of [], log) in
  map fst (files (fst (snd result)))
  = ["/var/log/wa/acme/send-file/M1/1700000000500.json"].
Proof. reflexivity. Qed.

(** C10.  On a log on which [finish] was not called, [save] returns
    without throwing, writes no file, leaves the log as it is and prints
    one error line.  The task that [onReceiveMessage] enqueues creates its
    log and never calls [finish]: it always returns and never writes a
    file, and when it fails (here: [getChat] throws) its handler calls
    [save], which prints the error line and persists nothing.  The task
    that [onReceiveMessageStatus] enqueues keeps no log and writes no file
    either. *)
Theorem unfinished_log_is_never_saved :
  (forall (T : Type) (log : Log T) (env : Env) (w : World (LogData T)),
      finishedAt log = None ->
      let result := save env (w, log) in
      fst result = Returned tt
      /\ files (fst (snd result)) = files w
      /\ console (fst (snd result)) = (console w ++ ["log save error:"])%list
      /\ snd (snd result) = log)
  /\ (forall (this : Instance) (message : Message) (env : Env) (w : W),
        let result := onReceiveMessage_task this message env w in
        fst result = Returned tt
        /\ files (snd result) = files w
        /\ (forall e, getChat env message = Thrown e ->
            console (snd result)
            = (console w ++ ["log save error:"; "undefined";
                             (tag this ++ " Message failure => "
                                ++ id_serialized message)%string])%list))
  /\ (forall (this : Instance) (message : Message) (env : Env) (w : W),
        let result := onReceiveMessageStatus_task this message env w in
        fst result = Returned tt /\ files (snd result) = files w).
Proof.
  split; [|split].
  - intros T log env w Hnone result. unfold result.
    rewrite (save_unfinished log env w Hnone). simpl. auto.
  - intros this message env w result. unfold result. split; [|split].
    + destruct (onReceiveMessage_task_returns this message env w) as [[] Hret].
      exact Hret.
    + apply (@onReceiveMessage_task_keeps (files w) this message env w). reflexivity.
    + intros e Hchat.
      unfold onReceiveMessage_task, bind, ask, local, try_catch, of_outcome; simpl.
      rewrite Hchat; simpl. rewrite <- !app_assoc. reflexivity.
  - intros this message env w result. unfold result. split.
    + destruct (onReceiveMessageStatus_task_returns this message env w) as [[] Hret].
      exact Hret.
    + apply (@onReceiveMessageStatus_task_keeps (files w) this message env w).
      reflexivity.
Qed.

Lemma unfinished_log_is_never_saved_witness :
  let env := mkEnv true true true (fun _ => true) [] 1700000000500 (Some "/var/log/wa")
               (fun _ => true) (fun _ => Thrown (Error "getChat"))
               (fun _ => Returned None)
               (mapToParsedMessage (surroundings true (fun _ => true) []))
               (fun _ _ _ => Returned tt) in
  let log := new_Log "acme" "send-file" "M1" 1700000000400 ([] : Any) in
  let message := mkMessage "M1" "chat" false 0 in
  (fst (save env (world_of [], log)) = Returned tt
   /\ files (fst (snd (save env (world_of [], log)))) = []
   /\ console (fst (snd (save env (world_of [], log)))) = ["log save error:"]
   /\ snd (snd (save env (world_of [], log))) = log)
  /\ files (snd (onReceiveMessage_task acme message env (world_of []))) = []
  /\ console (snd (onReceiveMessage_task acme message env (world_of [])))
     = ["log save error:"; "undefined"; "[acme - 5511900000000] Message failure => M1"].
Proof.
  intros env log message.
  destruct unfinished_log_is_never_saved as (Hsave & Htask & _).
  split.
  - apply (Hsave Any log env (world_of [])). reflexivity.
  - destruct (Htask acme message env (world_of [])) as (_ & Hfiles & Hconsole).
    split; [exact Hfiles|].
    apply (Hconsole (Error "getChat")). reflexivity.
Defined.

(* ================================================================== *)
(** * The flags and the replies of the backend *)

(** The task of [onReceiveMessageStatus], database up: the rejection of
    the request is swallowed by [.catch(() => null)], so whatever the
    backend replies the request is followed by
    [updateMessage(id, { SYNC_STATUS: true })]; the handler that would
    write [SYNC_STATUS: false] is not reached. *)
Lemma onReceiveMessageStatus_task_run this message env (w : W) :
  db_up env = true ->
  let request := PUT (requestURL this ++ "/update_message/" ++ id_serialized message)
                     (BodyStatus (Some (ack_status (ack message)))) in
  let result := onReceiveMessageStatus_task this message env w in
  fst result = Returned tt
  /\ sent (snd result) = (sent w ++ [request])%list
  /\ messages (snd result)
     = UPDATE None (Some true) None (id_serialized message) (messages w).
Proof.
  intros Hup request result.
  unfold result, onReceiveMessageStatus_task. cbv zeta. fold request.
  cbv beta iota delta [updateMessage catch_null try_catch bind axios ret
                       getDBConnection execute logWithDate modify].
  rewrite Hup.
  destruct (remote env request); cbn [fst snd sent messages]; auto.
Qed.

(** The second branch of the loop of [syncMessagesWithServer], backend
    acknowledging: the request goes to [/update_message/] followed by the
    column [FROM] of the row. *)
Lemma sync_row_status_only this (message : Row) env (w : W) :
  SYNC_MESSAGE message = true -> SYNC_STATUS message = false ->
  let request := PUT (requestURL this ++ "/update_message/" ++ FROM message)
                     (BodyStatus (STATUS message)) in
  sent (snd (sync_row this message env w)) = (sent w ++ [request])%list.
Proof.
  intros Hm Hs request.
  unfold sync_row. rewrite Hm, Hs. cbn [negb andb]. fold request.
  cbv beta iota delta [updateMessage bind ask local try_catch lift setData setError
                       save on_log modify axios ret get throw new_Log
                       getDBConnection execute logWithDate finishedAt].
  cbn [fst snd].
  destruct (remote env request), (db_up env); reflexivity.
Qed.

(** C1, at an input where the code departs from it.  The backend rejects
    every request.  A status event with code 3 for the stored message [M1]:
    the request is sent and fails, and the row ends with SYNC_STATUS true.
    An incoming message [M2] whose identifier table [w_mensagens] already
    holds: the request is sent and fails, and the row ends with both flags
    true. *)
Theorem flags_set_after_failed_request :
  let status_event := mkMessage "M1" "chat" false 3 in
  let after_status :=
    snd (onReceiveMessageStatus_task acme status_event
           (surroundings true (fun _ => false) [])
           (world_of [stored "M1" (Some "SENT") true false])) in
  let incoming := mkMessage "M2" "chat" false 0 in
  let after_message :=
    snd (onReceiveMessage_task acme incoming
           (surroundings true (fun _ => false) ["M2"])
           (world_of [])) in
  sent after_status
  = [PUT "http://backend/update_message/M1" (BodyStatus (Some "READ"))]
  /\ messages after_status = [stored "M1" (Some "SENT") true true]
  /\ sent after_message
     = [POST "http://backend/receive_message/5511900000000/5511988887777"
             (BodyMessage (text_message "M2" (Some "hi")))]
  /\ messages after_message = [stored "M2" (Some "RECEIVED") true true].
Proof. repeat split; reflexivity. Qed.

(** C4, at an input where the code departs from it.  The sweep finds the
    row [M1] of contact [5511988887777] with SYNC_MESSAGE true and
    SYNC_STATUS false; the backend acknowledges every request.  The request
    goes to [/update_message/5511988887777], the contact, not to
    [/update_message/M1], the message identifier; SYNC_STATUS is then set
    true. *)
Theorem sweep_status_request_names_the_contact :
  let result :=
    snd (syncMessagesWithServer acme
           (surroundings true (fun _ => true) [])
           (world_of [stored "M1" (Some "READ") true false])) in
  sent result
  = [PUT "http://backend/update_message/5511988887777" (BodyStatus (Some "READ"))]
  /\ sent result
     <> [PUT "http://backend/update_message/M1" (BodyStatus (Some "READ"))]
  /\ messages result = [stored "M1" (Some "READ") true true].
Proof.
  repeat split; try reflexivity. vm_compute. discriminate.
Qed.

(* ================================================================== *)
(** * The sweep *)

Section Sweep.
Variable this : Instance.

(** One turn of the loop on a row that is not settled: it returns, one
    request is sent, and the flags are written when the request is
    acknowledged and the database answers. *)
Lemma sync_row_run message env (w : W) :
  is_settled message = false ->
  let result := sync_row this message env w in
  fst result = Returned tt
  /\ sent (snd result) = (sent w ++ [sweep_request this env message])%list
  /\ messages (snd result)
     = (if remote env (sweep_request this env message) && db_up env
        then sweep_update message (messages w) else messages w)
  /\ files (snd result) = files w.
Proof.
  unfold is_settled, sweep_request, sweep_update, sync_row.
  destruct (SYNC_MESSAGE message), (SYNC_STATUS message); cbn [negb andb];
    try discriminate; intros _;
    cbv beta iota zeta delta [updateMessage bind ask local try_catch lift setData
                         setError save on_log modify axios ret get throw new_Log
                         getDBConnection execute logWithDate finishedAt];
    cbn [fst snd];
    match goal with
    | |- context [remote env ?r] => destruct (remote env r)
    end;
    destruct (db_up env); cbn; auto.
Qed.

Lemma sweep_loop env rows : forall w : W,
  Forall (fun r => is_settled r = false) rows ->
  let result := for_of rows (sync_row this) env w in
  fst result = Returned tt
  /\ sent (snd result) = (sent w ++ map (sweep_request this env) rows)%list
  /\ messages (snd result) = sweep_table this env rows (messages w)
  /\ files (snd result) = files w.
Proof.
  induction rows as [|r rows IH]; intros w Hall; cbn [for_of].
  - cbn. rewrite app_nil_r. auto.
  - inversion Hall as [|x l Hr Hrest]; subst.
    destruct (sync_row_run r env w Hr) as (Hret & Hsent & Hmsgs & Hfiles).
    unfold bind. destruct (sync_row this r env w) as [[[]|e] w1]; cbn in *;
      [|discriminate].
    destruct (IH w1 Hrest) as (Hret' & Hsent' & Hmsgs' & Hfiles').
    repeat split; auto.
    + rewrite Hsent', Hsent, <- app_assoc. reflexivity.
    + rewrite Hmsgs', Hmsgs. reflexivity.
    + congruence.
Qed.

Lemma unsynced_not_settled key r : unsynced key r = true -> is_settled r = false.
Proof.
  unfold unsynced, is_settled.
  destruct (SYNC_MESSAGE r), (SYNC_STATUS r); simpl; auto; discriminate.
Qed.

(** The sweep with the database up. *)
Lemma syncMessagesWithServer_run env (w : W) :
  db_up env = true ->
  let selected := filter (unsynced (instance_key this)) (messages w) in
  let result := syncMessagesWithServer this env w in
  fst result = Returned tt
  /\ sent (snd result) = (sent w ++ map (sweep_request this env) selected)%list
  /\ messages (snd result) = sweep_table this env selected (messages w)
  /\ files (snd result) = files w.
Proof.
  intros Hup selected result.
  assert (Hall : Forall (fun r => is_settled r = false) selected).
  { apply Forall_forall. intros r Hin. apply filter_In in Hin.
    apply (unsynced_not_settled _ _ (proj2 Hin)). }
  destruct (sweep_loop env w Hall) as (Hret & Hsent & Hmsgs & Hfiles).
  unfold result, syncMessagesWithServer, try_catch, bind, getDBConnection,
    execute_select. rewrite Hup. fold selected.
  destruct (for_of selected (sync_row this) env w) as [[[]|e] w1]; cbn in *;
    [auto|discriminate].
Qed.

(** The sweep with the database down: one console line. *)
Lemma syncMessagesWithServer_down env (w : W) :
  db_up env = false ->
  syncMessagesWithServer this env w
  = (Returned tt,
     mkWorld (messages w) (sent w) (files w)
       (console w ++ [tag this ++ " Sync messages failure =>"])).
Proof.
  intros Hdown.
  unfold syncMessagesWithServer, try_catch, bind, getDBConnection. rewrite Hdown.
  reflexivity.
Qed.

Lemma UPDATE_map s ss sm id rows : UPDATE s ss sm id rows = map (update_row s ss sm id) rows.
Proof. reflexivity. Qed.

Lemma sweep_table_map env selected : forall rows,
  sweep_table this env selected rows = map (sweep_row this env selected) rows.
Proof.
  unfold sweep_table, sweep_row.
  induction selected as [|m selected IH]; intros rows; cbn [fold_left].
  - symmetry. apply map_id.
  - rewrite IH.
    destruct (remote env (sweep_request this env m) && db_up env).
    + unfold sweep_update. destruct (negb (SYNC_MESSAGE m));
        rewrite UPDATE_map, map_map; reflexivity.
    + reflexivity.
Qed.

Lemma flags_raised_refl r : flags_raised r r.
Proof. unfold flags_raised, same_content. repeat split; auto. Qed.

Lemma flags_raised_trans r1 r2 r3 :
  flags_raised r1 r2 -> flags_raised r2 r3 -> flags_raised r1 r3.
Proof.
  unfold flags_raised, same_content.
  intros (C1 & M1 & S1) (C2 & M2 & S2).
  repeat split; try (intros; auto); try (destruct C1 as (?&?&?&?&?&?&?&?&?&?&?&?&?&?);
    destruct C2 as (?&?&?&?&?&?&?&?&?&?&?&?&?&?); congruence).
Qed.

Lemma update_row_raises (sm : bool) id r :
  flags_raised r (update_row None (Some true) (if sm then Some true else None) id r).
Proof.
  unfold update_row. destruct (String.eqb (ID r) id); [|apply flags_raised_refl].
  unfold flags_raised, same_content. destruct sm; cbn; repeat split; auto.
Qed.

Lemma sweep_row_raises env selected : forall r,
  flags_raised r (sweep_row this env selected r).
Proof.
  unfold sweep_row.
  induction selected as [|m selected IH]; intros r; cbn [fold_left].
  - apply flags_raised_refl.
  - eapply flags_raised_trans; [|apply IH].
    destruct (remote env (sweep_request this env m) && db_up env).
    + apply update_row_raises.
    + apply flags_raised_refl.
Qed.

Lemma flags_raised_settled r r' :
  flags_raised r r' -> is_settled r = true -> is_settled r' = true.
Proof.
  unfold is_settled. intros (_ & Hm & Hs) H.
  apply andb_true_iff in H. destruct H as [H1 H2].
  rewrite (Hm H1), (Hs H2). reflexivity.
Qed.

(** With every request acknowledged and the database up, the turn of a
    selected row settles the row of the table that started as that row. *)
Lemma sweep_row_settles env selected :
  db_up env = true -> (forall request, remote env request = true) ->
  forall r acc, In r selected -> flags_raised r acc ->
  is_settled (sweep_row this env selected acc) = true.
Proof.
  intros Hup Hack. unfold sweep_row.
  induction selected as [|m selected IH]; intros r acc Hin Hacc; [contradiction|].
  cbn [fold_left].
  assert (Hc : remote env (sweep_request this env m) && db_up env = true)
    by (rewrite Hack, Hup; reflexivity).
  rewrite Hc.
  destruct Hin as [-> | Hin].
  - apply (@flags_raised_settled
             (update_row None (Some true)
                (if negb (SYNC_MESSAGE r) then Some true else None) (ID r) acc)).
    + apply (sweep_row_raises env selected).
    + destruct Hacc as (Hcontent & Hm & _).
      unfold update_row. rewrite (proj1 Hcontent), String.eqb_refl.
      unfold is_settled. destruct (SYNC_MESSAGE r); cbn.
      * rewrite (Hm eq_refl). reflexivity.
      * reflexivity.
  - apply (IH r); auto.
    eapply flags_raised_trans; [exact Hacc|]. apply update_row_raises.
Qed.
End Sweep.

Lemma Forall2_map_right (A : Type) (R : A -> A -> Prop) (f : A -> A) (l : list A) :
  (forall a, R a (f a)) -> Forall2 R l (map f l).
Proof. intros HR. induction l; simpl; constructor; auto. Qed.

Lemma filter_none (A : Type) (f : A -> bool) (l : list A) :
  (forall a, In a l -> f a = false) -> filter f l = [].
Proof.
  induction l as [|a l IH]; simpl; intros Hf; auto.
  rewrite (Hf a) by auto. apply IH. intros b Hb. apply Hf. auto.
Qed.

(** X1.  With the database up the sweep returns and sends exactly one
    request for each row it selects (each row of the instance with a flag
    off), in the order of the table, whatever the backend replies to the
    requests before: the message when SYNC_MESSAGE is off, the status
    otherwise.  A failure on one row does not stop the sweep. *)
Theorem sweep_sends_one_request_per_unsettled_row
    (this : Instance) (env : Env) (w : W) :
  db_up env = true ->
  let selected := filter (unsynced (instance_key this)) (messages w) in
  let result := syncMessagesWithServer this env w in
  fst result = Returned tt
  /\ sent (snd result) = (sent w ++ map (sweep_request this env) selected)%list.
Proof.
  intros Hup selected result.
  destruct (syncMessagesWithServer_run this env w Hup) as (Hret & Hsent & _).
  split; assumption.
Qed.

Lemma sweep_sends_one_request_per_unsettled_row_witness :
  let env := surroundings true (fun _ => false) [] in
  let w := world_of [stored "M1" (Some "READ") false true;
                     stored "M2" (Some "SENT") true false;
                     stored "M3" (Some "READ") true true] in
  let result := syncMessagesWithServer acme env w in
  fst result = Returned tt
  /\ sent (snd result)
     = [POST "http://backend/receive_message/5511900000000/5511988887777"
             (BodyMessage (mapToParsedMessage env (stored "M1" (Some "READ") false true)));
        PUT "http://backend/update_message/5511988887777" (BodyStatus (Some "SENT"))].
Proof.
  apply (@sweep_sends_one_request_per_unsettled_row acme
           (surroundings true (fun _ => false) [])
           (world_of [stored "M1" (Some "READ") false true;
                      stored "M2" (Some "SENT") true false;
                      stored "M3" (Some "READ") true true])).
  reflexivity.
Defined.

(** X2.  The sweep never throws and never writes a file; when the
    database cannot be reached it sends no request and leaves the table as
    it is. *)
Theorem sweep_never_throws (this : Instance) (env : Env) (w : W) :
  let result := syncMessagesWithServer this env w in
  fst result = Returned tt
  /\ files (snd result) = files w
  /\ (db_up env = false ->
      messages (snd result) = messages w /\ sent (snd result) = sent w).
Proof.
  intros result. unfold result.
  destruct (db_up env) eqn:Hup.
  - destruct (syncMessagesWithServer_run this env w Hup) as (Hret & _ & _ & Hfiles).
    repeat split; auto; discriminate.
  - rewrite (syncMessagesWithServer_down this env w Hup). cbn. auto.
Qed.

Lemma sweep_never_throws_witness :
  let env := surroundings false (fun _ => true) [] in
  let w := world_of [stored "M1" (Some "READ") false false] in
  let result := syncMessagesWithServer acme env w in
  fst result = Returned tt
  /\ messages (snd result) = [stored "M1" (Some "READ") false false]
  /\ sent (snd result) = [].
Proof.
  intros env w result.
  destruct (@sweep_never_throws acme env w) as (Hret & _ & Hdown).
  split; [exact Hret|]. apply Hdown. reflexivity.
Defined.

(** X3.  Whatever the surroundings, after a sweep the table holds the
    same rows in the same order, each with the content it had (every column
    but the two flags), and a flag that was on is still on: the sweep adds
    no row, removes none, and only ever raises flags. *)
Theorem sweep_keeps_content_and_raises_flags (this : Instance) (env : Env) (w : W) :
  Forall2 flags_raised (messages w) (messages (snd (syncMessagesWithServer this env w))).
Proof.
  destruct (db_up env) eqn:Hup.
  - destruct (syncMessagesWithServer_run this env w Hup) as (_ & _ & Hmsgs & _).
    rewrite Hmsgs, sweep_table_map.
    apply Forall2_map_right. apply sweep_row_raises.
  - rewrite (syncMessagesWithServer_down this env w Hup). cbn.
    apply Forall2_same. apply flags_raised_refl.
Qed.

(** X4.  With the database up and a backend that acknowledges every
    request, one sweep settles the instance: afterwards no row of the
    instance has a flag off, so the selection of the next sweep is empty. *)
Theorem sweep_settles_with_healthy_backend (this : Instance) (env : Env) (w : W) :
  db_up env = true ->
  (forall request, remote env request = true) ->
  filter (unsynced (instance_key this))
         (messages (snd (syncMessagesWithServer this env w))) = [].
Proof.
  intros Hup Hack.
  destruct (syncMessagesWithServer_run this env w Hup) as (_ & _ & Hmsgs & _).
  rewrite Hmsgs, sweep_table_map.
  set (selected := filter (unsynced (instance_key this)) (messages w)).
  apply filter_none. intros r' Hin.
  apply in_map_iff in Hin. destruct Hin as (r & <- & Hin).
  pose proof (sweep_row_raises this env selected r) as Hraised.
  destruct (unsynced (instance_key this) r) eqn:Hsel.
  - assert (Hset : is_settled (sweep_row this env selected r) = true).
    { apply (@sweep_row_settles this env selected Hup Hack r r).
      - apply filter_In. auto.
      - apply flags_raised_refl. }
    unfold unsynced. unfold is_settled in Hset.
    apply andb_true_iff in Hset. destruct Hset as [-> ->]. reflexivity.
  - unfold unsynced in *.
    destruct Hraised as (Hcontent & Hm & Hs).
    destruct Hcontent as (_&_&_&_&_&_&_&_&_&_&_&_&Hinst&_). rewrite Hinst.
    destruct (String.eqb (INSTANCE r) (instance_key this));
      [|apply andb_false_r].
    rewrite andb_true_r in Hsel. apply orb_false_iff in Hsel.
    destruct Hsel as [H1 H2].
    apply negb_false_iff in H1. apply negb_false_iff in H2.
    rewrite (Hm H1), (Hs H2). reflexivity.
Qed.

Lemma sweep_settles_with_healthy_backend_witness :
  let env := surroundings true (fun _ => true) [] in
  let w := world_of [stored "M1" (Some "READ") false true;
                     stored "M2" (Some "SENT") true false] in
  messages (snd (syncMessagesWithServer acme env w))
  = [stored "M1" (Some "READ") true true; stored "M2" (Some "SENT") true true]
  /\ filter (unsynced (instance_key acme))
            (messages (snd (syncMessagesWithServer acme env w))) = [].
Proof.
  split; [reflexivity|].
  apply (@sweep_settles_with_healthy_backend acme
           (surroundings true (fun _ => true) [])
           (world_of [stored "M1" (Some "READ") false true;
                      stored "M2" (Some "SENT") true false])).
  - reflexivity.
  - reflexivity.
Defined.

Lemma sweep_table_rejected this env selected rows :
  (forall request, remote env request = false) ->
  sweep_table this env selected rows = rows.
Proof.
  intros Hrej. unfold sweep_table.
  induction selected as [|m selected IH]; cbn [fold_left]; auto.
  rewrite (Hrej (sweep_request this env m)). cbn [andb]. exact IH.
Qed.

(** X5.  When the backend rejects every request the sweep leaves the
    table exactly as it was: no flag is raised without an acknowledgement,
    and the rows stay selected for the next sweep. *)
Theorem sweep_rejected_changes_nothing (this : Instance) (env : Env) (w : W) :
  (forall request, remote env request = false) ->
  messages (snd (syncMessagesWithServer this env w)) = messages w.
Proof.
  intros Hrej. destruct (db_up env) eqn:Hup.
  - destruct (syncMessagesWithServer_run this env w Hup) as (_ & _ & Hmsgs & _).
    rewrite Hmsgs. apply sweep_table_rejected, Hrej.
  - rewrite (syncMessagesWithServer_down this env w Hup). reflexivity.
Qed.

Lemma sweep_rejected_changes_nothing_witness :
  let env := surroundings true (fun _ => false) [] in
  let w := world_of [stored "M1" (Some "READ") false false] in
  messages (snd (syncMessagesWithServer acme env w))
  = [stored "M1" (Some "READ") false false].
Proof.
  apply (@sweep_rejected_changes_nothing acme (surroundings true (fun _ => false) [])
           (world_of [stored "M1" (Some "READ") false false])).
  reflexivity.
Defined.

(** X6.  When no row of the instance has a flag off, a sweep sends no
    request and leaves the table as it is, whatever the surroundings:
    settled rows, and rows of other instances, are never forwarded
    again. *)
Theorem sweep_settled_table_is_noop (this : Instance) (env : Env) (w : W) :
  filter (unsynced (instance_key this)) (messages w) = [] ->
  let result := syncMessagesWithServer this env w in
  sent (snd result) = sent w /\ messages (snd result) = messages w.
Proof.
  intros Hnone result. unfold result. destruct (db_up env) eqn:Hup.
  - destruct (syncMessagesWithServer_run this env w Hup) as (_ & Hsent & Hmsgs & _).
    rewrite Hsent, Hmsgs, Hnone. cbn. rewrite app_nil_r. auto.
  - rewrite (syncMessagesWithServer_down this env w Hup). cbn. auto.
Qed.

Lemma sweep_settled_table_is_noop_witness :
  let env := surroundings true (fun _ => true) [] in
  let other := mkRow "M9" None None None None false None None None None None None
                     false false "other_5511911111111" "5511977776666" in
  let w := world_of [stored "M1" (Some "READ") true true; other] in
  let result := syncMessagesWithServer acme env w in
  sent (snd result) = [] /\ messages (snd result) = messages w.
Proof.
  intros env other w.
  apply (@sweep_settled_table_is_noop acme env w). reflexivity.
Defined.

(* ================================================================== *)
(** * Incoming messages *)

Section Incoming.
Variable this : Instance.

(** The loop over the automatic messages changes nothing of the state
    the model keeps; it returns when every automatic message does. *)
Lemma auto_messages_state (S : Type) (xs : list DBAutomaticMessage)
    (f : DBAutomaticMessage -> Outcome unit) env (s : S) :
  snd (for_of xs (fun x => of_outcome (f x)) env s) = s.
Proof.
  induction xs as [|x xs IH]; cbn [for_of]; [reflexivity|].
  unfold bind, of_outcome at 1. destruct (f x) as [[]|e]; [exact IH|reflexivity].
Qed.

Lemma auto_messages_return (S : Type) (xs : list DBAutomaticMessage)
    (f : DBAutomaticMessage -> Outcome unit) env (s : S) :
  (forall x, In x xs -> f x = Returned tt) ->
  for_of xs (fun x => of_outcome (f x)) env s = (Returned tt, s).
Proof.
  induction xs as [|x xs IH]; cbn [for_of]; intros Hall; [reflexivity|].
  unfold bind, of_outcome at 1. rewrite (Hall x) by (left; reflexivity).
  apply IH. intros y Hy. apply Hall. right. exact Hy.
Qed.

Lemma auto_messages_throw (S : Type) (xs : list DBAutomaticMessage)
    (f : DBAutomaticMessage -> Outcome unit) env (s : S) :
  (exists x e, In x xs /\ f x = Thrown e) ->
  exists e, for_of xs (fun x => of_outcome (f x)) env s = (Thrown e, s).
Proof.
  induction xs as [|x xs IH]; cbn [for_of]; intros (y & e & Hin & Hy); [contradiction|].
  unfold bind, of_outcome at 1. destruct (f x) as [[]|e'] eqn:Hx.
  - apply IH. destruct Hin as [-> | Hin]; [congruence|]. exists y, e. auto.
  - exists e'. reflexivity.
Qed.

(** Reduction of the body of a task down to the outcomes the surroundings
    decide. *)
Ltac run_js :=
  cbv beta iota zeta delta
    [bind ask local try_catch of_outcome setData setError on_log modify lift
     catch_null axios ret pool_query_w_mensagens updateMessage saveMessage
     getDBConnection execute logWithDate console_error save get throw
     finishedAt new_Log fst snd].

(** The task up to the test: the chat is read and the automatic messages
    are run. *)
Ltac enter_task Hchat :=
  unfold onReceiveMessage_task;
  unfold bind at 1; unfold ask at 1; unfold local; unfold try_catch at 1;
  unfold bind at 1; rewrite Hchat; unfold of_outcome at 1;
  unfold bind at 1.

(** What a message that is dropped leaves: three console lines. *)
Lemma onReceiveMessage_task_drops message env (w : W) :
  (exists e, getChat env message = Thrown e)
  \/ (exists chat, getChat env message = Returned chat
       /\ ((exists am e, In am (autoMessages this)
                         /\ runAutoMessage env am message (chat_user chat) = Thrown e)
           \/ ((forall am, In am (autoMessages this) ->
                   runAutoMessage env am message (chat_user chat) = Returned tt)
               /\ accepted this env message chat = true
               /\ ((exists e, messageParser env message = Thrown e)
                   \/ messageParser env message = Returned None)))) ->
  onReceiveMessage_task this message env w
  = (Returned tt,
     mkWorld (messages w) (sent w) (files w)
       (((console w ++ ["log save error:"]) ++ ["undefined"])
          ++ [(tag this ++ " Message failure => " ++ id_serialized message)%string])%list).
Proof.
  intros [[e Hchat] | (chat & Hchat & [(am & e & Hin & Ham) | (Hauto & Hacc & Hparse)])].
  - unfold onReceiveMessage_task.
    unfold bind at 1. unfold ask at 1. unfold local. unfold try_catch at 1.
    unfold bind at 1. rewrite Hchat. run_js. reflexivity.
  - enter_task Hchat.
    match goal with
    | |- context [for_of ?xs ?f env ?s] =>
        assert (He : exists e', for_of xs f env s = (Thrown e', s))
          by (apply (@auto_messages_throw _ xs
                       (fun am => runAutoMessage env am message (chat_user chat)) env s);
              exists am, e; auto)
    end.
    destruct He as [e' ->]. run_js. reflexivity.
  - enter_task Hchat.
    rewrite (auto_messages_return _
               (fun am => runAutoMessage env am message (chat_user chat)))
      by exact Hauto.
    fold (accepted this env message chat). rewrite Hacc.
    unfold bind at 1.
    destruct Hparse as [[e Hparse] | Hparse]; rewrite Hparse; run_js; reflexivity.
Qed.

(** A message the test turns down: the table, the requests and the files
    stay, whatever the automatic messages do. *)
Lemma onReceiveMessage_task_filtered message env (w : W) chat :
  getChat env message = Returned chat ->
  accepted this env message chat = false ->
  exists w',
    onReceiveMessage_task this message env w = (Returned tt, w')
    /\ messages w' = messages w
    /\ sent w' = sent w
    /\ files w' = files w.
Proof.
  intros Hchat Hacc.
  enter_task Hchat.
  match goal with
  | |- context [for_of ?xs ?f env ?s] =>
      assert (Hstate : snd (for_of xs f env s) = s)
        by apply (@auto_messages_state _ xs
                    (fun am => runAutoMessage env am message (chat_user chat)) env s);
      destruct (for_of xs f env s) as [[[]|e] s1]
  end; cbn [snd] in Hstate; subst s1.
  - fold (accepted this env message chat). rewrite Hacc.
    eexists. split; [run_js; reflexivity|]. cbn. auto.
  - eexists. split; [run_js; reflexivity|]. cbn. auto.
Qed.

(** A message that passes the test and is parsed: the row is written when
    the database answers, the request is sent in every case, and both flags
    are raised when the pool answers and [w_mensagens] holds the
    identifier. *)
Lemma onReceiveMessage_task_stores message env (w : W) chat pm :
  getChat env message = Returned chat ->
  (forall am, In am (autoMessages this) ->
     runAutoMessage env am message (chat_user chat) = Returned tt) ->
  accepted this env message chat = true ->
  messageParser env message = Returned (Some pm) ->
  exists w',
    onReceiveMessage_task this message env w = (Returned tt, w')
    /\ sent w' = (sent w ++ [receive_message_request this (chat_user chat) pm])%list
    /\ messages w'
       = (if db_up env
          then (if pool_up env
                then match find (String.eqb (pm_ID pm)) (w_mensagens env) with
                     | Some _ => UPDATE None (Some true) (Some true) (pm_ID pm)
                     | None => fun rows => rows
                     end
                else fun rows => rows)
                 (INSERT (saveMessage_params this pm (chat_user chat)) (messages w))
          else messages w)
    /\ files w' = files w.
Proof.
  intros Hchat Hauto Hacc Hparse.
  enter_task Hchat.
  rewrite (auto_messages_return _
             (fun am => runAutoMessage env am message (chat_user chat)))
    by exact Hauto.
  fold (accepted this env message chat). rewrite Hacc.
  unfold bind at 1. rewrite Hparse. unfold of_outcome at 1.
  fold (receive_message_request this (chat_user chat) pm).
  destruct (db_up env) eqn:Hdb, (pool_up env) eqn:Hpool,
    (remote env (receive_message_request this (chat_user chat) pm)) eqn:Hrem,
    (find (String.eqb (pm_ID pm)) (w_mensagens env)) eqn:Hfind;
    eexists;
    (split;
     [ run_js; rewrite ?Hdb, ?Hpool, ?Hrem, ?Hfind; run_js;
       rewrite ?Hdb, ?Hpool, ?Hrem, ?Hfind; run_js; reflexivity
     | cbn [messages sent files]; repeat split; reflexivity ]).
Qed.
End Incoming.

(** X7.  A message that the test of [onReceiveMessage] turns down (group
    chat, message not from now, status, blocked type or blocked contact)
    leaves no trace, whatever the automatic messages do: the task returns,
    no row is written, no request is sent and no file is written. *)
Theorem filtered_message_leaves_no_trace
    (this : Instance) (message : Message) (env : Env) (w : W) (chat : Chat) :
  getChat env message = Returned chat ->
  accepted this env message chat = false ->
  let result := onReceiveMessage_task this message env w in
  fst result = Returned tt
  /\ messages (snd result) = messages w
  /\ sent (snd result) = sent w
  /\ files (snd result) = files w.
Proof.
  intros Hchat Hacc result.
  destruct (onReceiveMessage_task_filtered this message env w Hchat Hacc)
    as (w' & Hrun & Hm & Hs & Hf).
  unfold result. rewrite Hrun. cbn. auto.
Qed.

Lemma filtered_message_leaves_no_trace_witness :
  let env := surroundings true (fun _ => true) [] in
  let w := world_of [stored "M1" (Some "READ") true true] in
  let result := onReceiveMessage_task acme (mkMessage "M2" "call_log" false 0) env w in
  fst result = Returned tt
  /\ messages (snd result) = [stored "M1" (Some "READ") true true]
  /\ sent (snd result) = []
  /\ files (snd result) = [].
Proof.
  apply (@filtered_message_leaves_no_trace acme (mkMessage "M2" "call_log" false 0)
           (surroundings true (fun _ => true) [])
           (world_of [stored "M1" (Some "READ") true true])
           (mkChat "5511988887777" false)).
  - reflexivity.
  - reflexivity.
Defined.

(** X8.  A message is dropped when its chat cannot be read, when an
    automatic message throws, or when it passes the test and the parser
    throws or gives nothing: the task returns, prints its failure lines,
    and neither writes a row nor sends a request nor writes a file.  In
    particular a failing automatic message keeps the message from being
    stored and forwarded. *)
Theorem failed_message_is_dropped
    (this : Instance) (message : Message) (env : Env) (w : W) :
  (exists e, getChat env message = Thrown e)
  \/ (exists chat, getChat env message = Returned chat
       /\ ((exists am e, In am (autoMessages this)
                         /\ runAutoMessage env am message (chat_user chat) = Thrown e)
           \/ ((forall am, In am (autoMessages this) ->
                   runAutoMessage env am message (chat_user chat) = Returned tt)
               /\ accepted this env message chat = true
               /\ ((exists e, messageParser env message = Thrown e)
                   \/ messageParser env message = Returned None)))) ->
  let result := onReceiveMessage_task this message env w in
  fst result = Returned tt
  /\ messages (snd result) = messages w
  /\ sent (snd result) = sent w
  /\ files (snd result) = files w
  /\ console (snd result)
     = (console w ++ ["log save error:"; "undefined";
                      (tag this ++ " Message failure => " ++ id_serialized message)%string])%list.
Proof.
  intros Hdrop result. unfold result.
  rewrite (onReceiveMessage_task_drops this message env w Hdrop). cbn.
  repeat split; auto. rewrite <- !app_assoc. reflexivity.
Qed.

Lemma failed_message_is_dropped_witness :
  let this := mkInstance "acme" "5511900000000" "http://backend" [] [AutoMessage 7] in
  let env := mkEnv true true true (fun _ => true) [] 1700000000500 (Some "/var/log/wa")
               (fun _ => true) (fun _ => Returned (mkChat "5511988887777" false))
               (fun m => Returned (Some (text_message (id_serialized m) (Some "hi"))))
               (mapToParsedMessage (surroundings true (fun _ => true) []))
               (fun _ _ _ => Thrown (Error "auto message")) in
  let result := onReceiveMessage_task this (mkMessage "M1" "chat" false 0) env (world_of []) in
  fst result = Returned tt
  /\ messages (snd result) = []
  /\ sent (snd result) = []
  /\ files (snd result) = []
  /\ console (snd result)
     = ["log save error:"; "undefined"; "[acme - 5511900000000] Message failure => M1"].
Proof.
  intros this env.
  apply (@failed_message_is_dropped this (mkMessage "M1" "chat" false 0) env (world_of [])).
  right. exists (mkChat "5511988887777" false). split; [reflexivity|].
  left. exists (AutoMessage 7), (Error "auto message"). split; [left|]; reflexivity.
Defined.

(** X9.  A message that passes the test, with automatic messages that
    return and a parser that gives a message: the task returns and sends
    exactly one request, the parsed message to
    [/receive_message/{number}/{contact}], in every case, also when the
    database is down and nothing could be stored.  With the database up the
    row is written with [saveMessage], and both flags are then raised when
    the pool answers and table [w_mensagens] holds the identifier. *)
Theorem accepted_message_is_stored_and_forwarded
    (this : Instance) (message : Message) (env : Env) (w : W)
    (chat : Chat) (pm : ParsedMessage) :
  getChat env message = Returned chat ->
  (forall am, In am (autoMessages this) ->
     runAutoMessage env am message (chat_user chat) = Returned tt) ->
  accepted this env message chat = true ->
  messageParser env message = Returned (Some pm) ->
  let result := onReceiveMessage_task this message env w in
  fst result = Returned tt
  /\ sent (snd result)
     = (sent w ++ [receive_message_request this (chat_user chat) pm])%list
  /\ messages (snd result)
     = (if db_up env
        then (if pool_up env
              then match find (String.eqb (pm_ID pm)) (w_mensagens env) with
                   | Some _ => UPDATE None (Some true) (Some true) (pm_ID pm)
                   | None => fun rows => rows
                   end
              else fun rows => rows)
               (INSERT (saveMessage_params this pm (chat_user chat)) (messages w))
        else messages w)
  /\ files (snd result) = files w.
Proof.
  intros Hchat Hauto Hacc Hparse result.
  destruct (onReceiveMessage_task_stores this message env w Hchat Hauto Hacc Hparse)
    as (w' & Hrun & Hs & Hm & Hf).
  unfold result. rewrite Hrun. cbn [fst snd]. auto.
Qed.

Lemma accepted_message_is_stored_and_forwarded_witness :
  let env := surroundings false (fun _ => true) [] in
  let result := onReceiveMessage_task acme (mkMessage "M1" "chat" false 0) env (world_of []) in
  fst result = Returned tt
  /\ sent (snd result)
     = [POST "http://backend/receive_message/5511900000000/5511988887777"
             (BodyMessage (text_message "M1" (Some "hi")))]
  /\ messages (snd result) = []
  /\ files (snd result) = [].
Proof.
  apply (@accepted_message_is_stored_and_forwarded acme (mkMessage "M1" "chat" false 0)
           (surroundings false (fun _ => true) []) (world_of [])
           (mkChat "5511988887777" false) (text_message "M1" (Some "hi"))).
  - reflexivity.
  - intros am [].
  - reflexivity.
  - reflexivity.
Defined.

Lemma INSERT_absent values rows :
  ~ In (ID values) (map ID rows) -> INSERT values rows = (rows ++ [values])%list.
Proof.
  induction rows as [|r rows IH]; cbn [INSERT map app]; intros Hno; [reflexivity|].
  unfold duplicate_key.
  destruct (String.eqb_spec (ID r) (ID values)) as [Heq|Hne].
  - exfalso. apply Hno. left. exact Heq.
  - f_equal. apply IH. intros Hin. apply Hno. right. exact Hin.
Qed.

Lemma rows_with_map id (f : Row -> Row) rows :
  (forall r, ID (f r) = ID r) -> rows_with id (map f rows) = map f (rows_with id rows).
Proof.
  intros Hid. unfold rows_with.
  induction rows as [|r rows IH]; cbn [map filter]; [reflexivity|].
  rewrite Hid. destruct (String.eqb (ID r) id); cbn [map]; rewrite IH; reflexivity.
Qed.

Lemma rows_with_end id rows r :
  ~ In id (map ID rows) -> ID r = id -> rows_with id (rows ++ [r]) = [r].
Proof.
  intros Hno Hid. unfold rows_with. rewrite filter_app.
  fold (rows_with id rows). rewrite (rows_with_absent id rows Hno).
  cbn. rewrite Hid, String.eqb_refl. reflexivity.
Qed.

(** X10.  A new message is received while the backend does not confirm
    it (whatever it replies to the forward, table [w_mensagens] does not
    hold the identifier): the row is stored with both flags off.  The next
    sweep with the database up and a backend that acknowledges forwards the
    message again and leaves exactly that row, content unchanged, with both
    flags on. *)
Theorem unconfirmed_message_is_settled_by_next_sweep
    (this : Instance) (message : Message) (env1 env2 : Env) (w : W)
    (chat : Chat) (pm : ParsedMessage) :
  getChat env1 message = Returned chat ->
  (forall am, In am (autoMessages this) ->
     runAutoMessage env1 am message (chat_user chat) = Returned tt) ->
  accepted this env1 message chat = true ->
  messageParser env1 message = Returned (Some pm) ->
  db_up env1 = true ->
  find (String.eqb (pm_ID pm)) (w_mensagens env1) = None ->
  ~ In (pm_ID pm) (map ID (messages w)) ->
  db_up env2 = true ->
  (forall request, remote env2 request = true) ->
  let row := saveMessage_params this pm (chat_user chat) in
  let w1 := snd (onReceiveMessage_task this message env1 w) in
  let w2 := snd (syncMessagesWithServer this env2 w1) in
  rows_with (pm_ID pm) (messages w1) = [row]
  /\ In (sweep_request this env2 row) (sent w2)
  /\ exists row',
       rows_with (pm_ID pm) (messages w2) = [row']
       /\ same_content row row'
       /\ is_settled row' = true.
Proof.
  intros Hchat Hauto Hacc Hparse Hup1 Hfind Hnew Hup2 Hack row w1 w2.
  destruct (onReceiveMessage_task_stores this message env1 w Hchat Hauto Hacc Hparse)
    as (w' & Hrun & _ & Hm1 & _).
  assert (Hw1 : messages w1 = (messages w ++ [row])%list).
  { unfold w1. rewrite Hrun. cbn [snd]. rewrite Hm1, Hup1, Hfind.
    destruct (pool_up env1); apply (INSERT_absent row); exact Hnew. }
  destruct (syncMessagesWithServer_run this env2 w1 Hup2) as (_ & Hsent & Hm2 & _).
  fold w2 in Hsent, Hm2.
  set (selected := filter (unsynced (instance_key this)) (messages w1)) in *.
  assert (Hsel : In row selected).
  { apply filter_In. split.
    - rewrite Hw1. apply in_or_app. right. left. reflexivity.
    - unfold unsynced, row. cbn. apply String.eqb_refl. }
  split; [|split].
  - rewrite Hw1. apply rows_with_end; [exact Hnew|reflexivity].
  - rewrite Hsent. apply in_or_app. right. apply in_map. exact Hsel.
  - exists (sweep_row this env2 selected row).
    pose proof (sweep_row_raises this env2 selected) as Hraise.
    split; [|split].
    + rewrite Hm2, sweep_table_map, rows_with_map, Hw1.
      * rewrite rows_with_end; [reflexivity|exact Hnew|reflexivity].
      * intros r. apply (proj1 (proj1 (Hraise r))).
    + apply (proj1 (Hraise row)).
    + apply (@sweep_row_settles this env2 selected Hup2 Hack row row Hsel).
      apply flags_raised_refl.
Qed.

Lemma unconfirmed_message_is_settled_by_next_sweep_witness :
  let env1 := surroundings true (fun _ => false) [] in
  let env2 := surroundings true (fun _ => true) [] in
  let w1 := snd (onReceiveMessage_task acme (mkMessage "M1" "chat" false 0) env1
                   (world_of [])) in
  let w2 := snd (syncMessagesWithServer acme env2 w1) in
  rows_with "M1" (messages w1) = [stored "M1" (Some "RECEIVED") false false]
  /\ In (sweep_request acme env2 (stored "M1" (Some "RECEIVED") false false)) (sent w2)
  /\ exists row',
       rows_with "M1" (messages w2) = [row']
       /\ same_content (stored "M1" (Some "RECEIVED") false false) row'
       /\ is_settled row' = true.
Proof.
  apply (@unconfirmed_message_is_settled_by_next_sweep acme
           (mkMessage "M1" "chat" false 0)
           (surroundings true (fun _ => false) []) (surroundings true (fun _ => true) [])
           (world_of []) (mkChat "5511988887777" false) (text_message "M1" (Some "hi"))).
  - reflexivity.
  - intros am [].
  - reflexivity.
  - reflexivity.
  - reflexivity.
  - reflexivity.
  - intros [].
  - reflexivity.
  - reflexivity.
Defined.

(** The task of a status event, in every state of the database and for
    every reply of the backend. *)
Lemma onReceiveMessageStatus_task_world this message env (w : W) :
  exists w',
    onReceiveMessageStatus_task this message env w = (Returned tt, w')
    /\ sent w'
       = (sent w ++ [PUT (requestURL this ++ "/update_message/" ++ id_serialized message)
                         (BodyStatus (Some (ack_status (ack message))))])%list
    /\ messages w'
       = (if db_up env
          then UPDATE None (Some true) None (id_serialized message) (messages w)
          else messages w)
    /\ files w' = files w.
Proof.
  unfold onReceiveMessageStatus_task. cbv zeta.
  set (request := PUT (requestURL this ++ "/update_message/" ++ id_serialized message)
                      (BodyStatus (Some (ack_status (ack message))))).
  destruct (db_up env) eqn:Hdb, (remote env request) eqn:Hrem;
    eexists;
    (split;
     [ cbv beta iota zeta delta
         [updateMessage catch_null try_catch bind axios ret getDBConnection
          execute logWithDate modify];
       rewrite ?Hdb, ?Hrem;
       cbv beta iota zeta delta
         [updateMessage catch_null try_catch bind axios ret getDBConnection
          execute logWithDate modify];
       rewrite ?Hdb, ?Hrem; cbv beta iota; reflexivity
     | cbn [messages sent files]; repeat split; reflexivity ]).
Qed.

(** X11.  A status event never throws, sends exactly one request (the
    mapped status to [/update_message/{id}]), adds no row and writes no
    file; in the table it changes nothing but SYNC_STATUS, which it never
    lowers: the stored STATUS, the content and SYNC_MESSAGE of every row
    stay as they were, whatever the backend replies. *)
Theorem status_event_touches_only_sync_status
    (this : Instance) (message : Message) (env : Env) (w : W) :
  let result := onReceiveMessageStatus_task this message env w in
  fst result = Returned tt
  /\ sent (snd result)
     = (sent w ++ [PUT (requestURL this ++ "/update_message/" ++ id_serialized message)
                       (BodyStatus (Some (ack_status (ack message))))])%list
  /\ files (snd result) = files w
  /\ Forall2 (fun r r' =>
                same_content r r'
                /\ SYNC_MESSAGE r' = SYNC_MESSAGE r
                /\ (SYNC_STATUS r = true -> SYNC_STATUS r' = true))
             (messages w) (messages (snd result)).
Proof.
  intros result.
  destruct (onReceiveMessageStatus_task_world this message env w)
    as (w' & Hrun & Hs & Hm & Hf).
  unfold result. rewrite Hrun. cbn [fst snd].
  repeat split; auto.
  rewrite Hm. destruct (db_up env).
  - rewrite UPDATE_map. apply Forall2_map_right. intros r.
    unfold update_row. destruct (String.eqb (ID r) (id_serialized message)).
    + unfold same_content. cbn. repeat split; auto.
    + unfold same_content. repeat split; auto.
  - apply Forall2_same. intros r. unfold same_content. repeat split; auto.
Qed.

(* ================================================================== *)
(** * The gateway: how the statements compose *)

Lemma or_null_string_idempotent v : or_null_string (or_null_string v) = or_null_string v.
Proof. destruct v as [[|a s]|]; reflexivity. Qed.

Lemma update_row_merge u1 u2 id r :
  update_row (or_null_string (u_STATUS u2)) (u_SYNC_STATUS u2) (u_SYNC_MESSAGE u2) id
    (update_row (or_null_string (u_STATUS u1)) (u_SYNC_STATUS u1) (u_SYNC_MESSAGE u1) id r)
  = update_row (or_null_string (u_STATUS (merge_updates u1 u2)))
      (u_SYNC_STATUS (merge_updates u1 u2)) (u_SYNC_MESSAGE (merge_updates u1 u2)) id r.
Proof.
  unfold update_row, merge_updates. cbn [u_STATUS u_SYNC_STATUS u_SYNC_MESSAGE].
  destruct (String.eqb (ID r) id) eqn:Hid; cbn [ID]; rewrite ?Hid; [|reflexivity].
  destruct u1 as [ss1 sm1 s1], u2 as [ss2 sm2 s2]; cbn.
  destruct ss1, ss2, sm1, sm2, s1 as [[|a1 s1]|], s2 as [[|a2 s2]|]; reflexivity.
Qed.

(** X12.  Two calls of [updateMessage] on the same identifier, database
    up, leave the table that the single call with the merged object leaves:
    for each of STATUS, SYNC_STATUS and SYNC_MESSAGE the later value wins
    when it is given and the earlier one stays otherwise.  In particular
    calling [updateMessage] twice with the same object is the same as
    calling it once. *)
Theorem updateMessage_last_write_wins
    (this : Instance) (id : string) (u1 u2 : MessageUpdate) (env1 env2 : Env) (w : W) :
  db_up env1 = true -> db_up env2 = true ->
  messages (snd (updateMessage this id u2 env2 (snd (updateMessage this id u1 env1 w))))
  = messages (snd (updateMessage this id (merge_updates u1 u2) env2 w))
  /\ messages (snd (updateMessage this id u1 env2 (snd (updateMessage this id u1 env1 w))))
     = messages (snd (updateMessage this id u1 env1 w)).
Proof.
  intros Hup1 Hup2.
  rewrite !updateMessage_run, Hup1. cbn [snd messages]. rewrite Hup2. cbn [snd messages].
  rewrite !UPDATE_map, !map_map. split.
  - apply map_ext. intros r. apply update_row_merge.
  - apply map_ext. intros r. rewrite update_row_merge.
    unfold update_row, merge_updates. cbn [u_STATUS u_SYNC_STATUS u_SYNC_MESSAGE].
    destruct (String.eqb (ID r) id); [|reflexivity].
    destruct u1 as [ss1 sm1 s1]; cbn.
    destruct ss1, sm1, s1 as [[|a1 s1]|]; reflexivity.
Qed.

Lemma updateMessage_last_write_wins_witness :
  let env := surroundings true (fun _ => true) [] in
  let w := world_of [stored "M1" (Some "SENT") false false] in
  messages (snd (updateMessage acme "M1" (mkUpdate (Some false) None None) env
                   (snd (updateMessage acme "M1"
                           (mkUpdate (Some true) (Some true) (Some "READ")) env w))))
  = [stored "M1" (Some "READ") true false].
Proof.
  intros env w.
  destruct (@updateMessage_last_write_wins acme "M1"
              (mkUpdate (Some true) (Some true) (Some "READ"))
              (mkUpdate (Some false) None None) env env w eq_refl eq_refl) as [H _].
  rewrite H. reflexivity.
Defined.

(** X13.  Calls of [updateMessage] on two different identifiers do not
    interfere: with the database up, the table they leave is the same in
    either order. *)
Theorem updateMessage_other_ids_commute
    (this : Instance) (id1 id2 : string) (u1 u2 : MessageUpdate) (env : Env) (w : W) :
  id1 <> id2 ->
  db_up env = true ->
  messages (snd (updateMessage this id2 u2 env (snd (updateMessage this id1 u1 env w))))
  = messages (snd (updateMessage this id1 u1 env (snd (updateMessage this id2 u2 env w)))).
Proof.
  intros Hne Hup.
  rewrite !updateMessage_run, Hup. cbn [snd messages]. rewrite ?Hup. cbn [snd messages].
  rewrite !UPDATE_map, !map_map. apply map_ext. intros r.
  unfold update_row.
  destruct (String.eqb (ID r) id1) eqn:E1, (String.eqb (ID r) id2) eqn:E2;
    cbn [ID]; rewrite ?E1, ?E2; try reflexivity.
  apply String.eqb_eq in E1. apply String.eqb_eq in E2. congruence.
Qed.

Lemma updateMessage_other_ids_commute_witness :
  let env := surroundings true (fun _ => true) [] in
  let w := world_of [stored "M1" (Some "SENT") false false;
                     stored "M2" (Some "SENT") true false] in
  messages (snd (updateMessage acme "M2" (mkUpdate (Some true) None None) env
                   (snd (updateMessage acme "M1" (mkUpdate None None (Some "READ")) env w))))
  = messages (snd (updateMessage acme "M1" (mkUpdate None None (Some "READ")) env
                     (snd (updateMessage acme "M2" (mkUpdate (Some true) None None) env w)))).
Proof.
  apply (@updateMessage_other_ids_commute acme "M1" "M2").
  - discriminate.
  - reflexivity.
Defined.

(** X14.  [updateMessage] cannot clear a status: after a call, whatever
    its arguments and surroundings, each row holds the STATUS it held, or a
    non-empty STATUS given in the call.  An empty STATUS counts as left
    out; a flag given as [false] is written. *)
Theorem updateMessage_never_clears_status
    (this : Instance) (id : string) (u : MessageUpdate) (env : Env) (w : W) :
  Forall2 (fun r r' =>
             STATUS r' = STATUS r
             \/ exists s, s <> EmptyString /\ u_STATUS u = Some s /\ STATUS r' = Some s)
          (messages w) (messages (snd (updateMessage this id u env w)))
  /\ updateMessage this id (mkUpdate (u_SYNC_STATUS u) (u_SYNC_MESSAGE u) (Some EmptyString))
       env w
     = updateMessage this id (mkUpdate (u_SYNC_STATUS u) (u_SYNC_MESSAGE u) None) env w
  /\ (db_up env = true ->
      Forall (fun r' => ID r' = id ->
                        SYNC_STATUS r' = false /\ SYNC_MESSAGE r' = false)
             (messages (snd (updateMessage this id (mkUpdate (Some false) (Some false) None)
                               env w)))).
Proof.
  split; [|split].
  - rewrite updateMessage_run. destruct (db_up env); cbn [snd messages].
    + rewrite UPDATE_map. apply Forall2_map_right. intros r.
      unfold update_row. destruct (String.eqb (ID r) id); [|left; reflexivity].
      cbn [STATUS]. destruct (u_STATUS u) as [[|a s]|]; cbn; auto.
      right. exists (String a s). repeat split; auto. discriminate.
    + apply Forall2_same. auto.
  - reflexivity.
  - intros Hup. rewrite updateMessage_run, Hup. cbn [snd messages].
    rewrite UPDATE_map. apply Forall_forall. intros r' Hin.
    apply in_map_iff in Hin. destruct Hin as (r & <- & _).
    unfold update_row. destruct (String.eqb_spec (ID r) id) as [Heq|Hne]; cbn.
    + auto.
    + intros Hid. contradiction.
Qed.

Lemma updateMessage_never_clears_status_witness :
  let env := surroundings true (fun _ => true) [] in
  let w := world_of [stored "M1" (Some "SENT") true true] in
  messages (snd (updateMessage acme "M1" (mkUpdate None None (Some EmptyString)) env w))
  = [stored "M1" (Some "SENT") true true]
  /\ Forall (fun r' => ID r' = "M1" -> SYNC_STATUS r' = false /\ SYNC_MESSAGE r' = false)
            (messages (snd (updateMessage acme "M1"
                              (mkUpdate (Some false) (Some false) None) env w))).
Proof.
  intros env w. split; [reflexivity|].
  apply (@updateMessage_never_clears_status acme "M1"
           (mkUpdate (Some false) (Some false) None) env w).
  reflexivity.
Defined.

Lemma filter_others_INSERT values rows :
  filter (fun r => negb (String.eqb (ID r) (ID values))) (INSERT values rows)
  = filter (fun r => negb (String.eqb (ID r) (ID values))) rows.
Proof.
  induction rows as [|r rows IH]; cbn [INSERT filter].
  - rewrite String.eqb_refl. reflexivity.
  - unfold duplicate_key. destruct (String.eqb (ID r) (ID values)) eqn:Hid.
    + cbn [filter ON_DUPLICATE_KEY_UPDATE ID]. rewrite Hid. reflexivity.
    + cbn [filter]. rewrite Hid. cbn [negb]. rewrite IH. reflexivity.
Qed.

(** X15.  [saveMessage] never throws, sends no request and writes no
    file; the rows that hold another identifier stay as they are, in their
    order.  With the database down the table is unchanged; with the
    database up a message whose identifier is new is added after the last
    row, with both flags off and the key of the instance. *)
Theorem saveMessage_touches_only_its_identifier
    (this : Instance) (message : ParsedMessage) (from : string) (env : Env) (w : W) :
  let result := saveMessage this message from env w in
  fst result = Returned tt
  /\ sent (snd result) = sent w
  /\ files (snd result) = files w
  /\ filter (fun r => negb (String.eqb (ID r) (pm_ID message))) (messages (snd result))
     = filter (fun r => negb (String.eqb (ID r) (pm_ID message))) (messages w)
  /\ (db_up env = false -> messages (snd result) = messages w)
  /\ (db_up env = true -> ~ In (pm_ID message) (map ID (messages w)) ->
      messages (snd result)
      = (messages w ++ [saveMessage_params this message from])%list
      /\ SYNC_MESSAGE (saveMessage_params this message from) = false
      /\ SYNC_STATUS (saveMessage_params this message from) = false
      /\ INSTANCE (saveMessage_params this message from) = instance_key this).
Proof.
  intros result. unfold result. rewrite saveMessage_run.
  destruct (db_up env); cbn [fst snd messages sent files]; repeat split; auto;
    try discriminate.
  - apply (filter_others_INSERT (saveMessage_params this message from)).
  - apply (INSERT_absent (saveMessage_params this message from)). assumption.
Qed.

Lemma saveMessage_touches_only_its_identifier_witness :
  let env := surroundings true (fun _ => true) [] in
  let w := world_of [stored "M1" (Some "READ") true true] in
  let result := saveMessage acme (text_message "M2" (Some "hi")) "5511988887777" env w in
  messages (snd result)
  = [stored "M1" (Some "READ") true true; stored "M2" (Some "RECEIVED") false false].
Proof.
  intros env w.
  destruct (@saveMessage_touches_only_its_identifier acme (text_message "M2" (Some "hi"))
              "5511988887777" env w) as (_ & _ & _ & _ & _ & Hnew).
  apply Hnew.
  - reflexivity.
  - cbn. intros [H | []]. discriminate.
Defined.

(** X16.  When [saveMessage] meets a stored row with its identifier
    (database up, key constraint kept), the row takes the new body, type,
    timestamps, direction, status and attachment, but keeps its
    ID_REFERENCIA, its INSTANCE and its FROM, whatever the new message and
    the calling instance say. *)
Theorem saveMessage_keeps_reference_instance_and_contact
    (this : Instance) (message : ParsedMessage) (from : string)
    (env : Env) (w : W) (r : Row) :
  db_up env = true ->
  unique_key (messages w) ->
  In r (messages w) ->
  ID r = pm_ID message ->
  exists r',
    rows_with (pm_ID message) (messages (snd (saveMessage this message from env w))) = [r']
    /\ ID_REFERENCIA r' = ID_REFERENCIA r
    /\ INSTANCE r' = INSTANCE r
    /\ FROM r' = FROM r
    /\ MENSAGEM r' = or_null_string (pm_MENSAGEM message)
    /\ TIPO r' = or_null_string (pm_TIPO message)
    /\ TIMESTAMP r' = or_null_number (pm_TIMESTAMP message)
    /\ FROM_ME r' = pm_FROM_ME message
    /\ DATA_HORA r' = pm_DATA_HORA message
    /\ STATUS r' = or_null_string (pm_STATUS message)
    /\ ARQUIVO_TIPO r' = or_null_string (ARQUIVO pf_TIPO message)
    /\ ARQUIVO_NOME_ORIGINAL r' = or_null_string (ARQUIVO pf_NOME_ORIGINAL message)
    /\ ARQUIVO_NOME r' = or_null_string (ARQUIVO pf_NOME_ARQUIVO message)
    /\ ARQUIVO_ARMAZENAMENTO r' = or_null_string (ARQUIVO pf_ARMAZENAMENTO message).
Proof.
  intros Hup Huniq Hin Hid.
  rewrite saveMessage_run, Hup. cbn [snd messages].
  set (values := saveMessage_params this message from).
  pose proof (rows_with_INSERT values Huniq) as Hrows.
  rewrite (@find_duplicate_key values _ _ Huniq Hin Hid) in Hrows.
  change (ID values) with (pm_ID message) in Hrows.
  exists (ON_DUPLICATE_KEY_UPDATE values r).
  split; [exact Hrows|].
  cbn. destruct (pm_FROM_ME message); repeat split; reflexivity.
Qed.

Lemma saveMessage_keeps_reference_instance_and_contact_witness :
  let other := mkRow "M1" (Some "old") (Some "M0") (Some "chat") (Some 5) true (Some 6)
                     (Some "READ") None None None None true true
                     "other_5511911111111" "5511977776666" in
  let result := saveMessage acme (text_message "M1" (Some "new")) "5511988887777"
                  (surroundings true (fun _ => true) []) (world_of [other]) in
  exists r',
    rows_with "M1" (messages (snd result)) = [r']
    /\ ID_REFERENCIA r' = Some "M0"
    /\ INSTANCE r' = "other_5511911111111"
    /\ FROM r' = "5511977776666"
    /\ MENSAGEM r' = Some "new".
Proof.
  intros other.
  destruct (@saveMessage_keeps_reference_instance_and_contact acme
              (text_message "M1" (Some "new")) "5511988887777"
              (surroundings true (fun _ => true) []) (world_of [other]) other)
    as (r' & Hrows & Href & Hinst & Hfrom & Hbody & _).
  - reflexivity.
  - repeat constructor. intros [].
  - left. reflexivity.
  - reflexivity.
  - exists r'. repeat split; assumption.
Defined.

(* ================================================================== *)
(** * The queue: progress and the lines it prints *)

Section QueueProgress.
Variable Task : Type.
Implicit Types (q : Queue Task) (ev : QueueEvent Task) (evs : list (QueueEvent Task)).

Lemma worker_alive_new : worker_alive (@new_queue Task).
Proof. intros H. discriminate. Qed.

Lemma worker_alive_step q ev :
  queue_inv q -> worker_alive q ->
  match ev with Rejected _ => False | _ => True end ->
  worker_alive (queue_step q ev).
Proof.
  intros Hinv Halive Hev.
  destruct ev as [task id | task id | i | i]; [| | |contradiction]; cbn [queue_step].
  - unfold enqueueMessageProcessing, enqueueProcessing, processUnifiedQueue. cbn.
    destruct (processingUnifiedQueue q) eqn:Hp.
    + cbn. intros _. exact (Halive Hp).
    + destruct Hinv as (_ & _ & _ & Hidle). destruct (Hidle Hp) as [Hq Hr].
      unfold while_loop. cbn. rewrite Hq, Hr. cbn. intros _. eexists. reflexivity.
  - unfold enqueueStatusProcessing, enqueueProcessing, processUnifiedQueue. cbn.
    destruct (processingUnifiedQueue q) eqn:Hp.
    + cbn. intros _. exact (Halive Hp).
    + destruct Hinv as (_ & _ & _ & Hidle). destruct (Hidle Hp) as [Hq Hr].
      unfold while_loop. cbn. rewrite Hq, Hr. cbn. intros _. eexists. reflexivity.
  - destruct (nth_error (running q) i) as [[task act]|] eqn:Hnth; [|exact Halive].
    destruct (running_at _ Hinv Hnth) as [Hrun ->].
    unfold while_loop, settle, without. cbn. rewrite Hrun. cbn.
    destruct (unifiedQueue q); cbn.
    + discriminate.
    + intros _. eexists. reflexivity.
Qed.

Lemma queue_run_alive evs : forall q,
  queue_inv q -> worker_alive q -> no_rejection evs ->
  queue_inv (queue_run evs q) /\ worker_alive (queue_run evs q).
Proof.
  induction evs as [|ev evs IH]; cbn [queue_run fold_left]; intros q Hinv Halive Hno.
  - auto.
  - inversion Hno as [|x l Hev Hrest]; subst.
    apply IH; [apply queue_inv_step; exact Hinv| |exact Hrest].
    apply worker_alive_step; assumption.
Qed.

Lemma enqueued_step q ev : enqueued (queue_step q ev) = (enqueued q ++ pushed [ev])%list.
Proof.
  destruct ev as [task id | task id | i | i]; cbn [queue_step pushed].
  - unfold enqueueMessageProcessing, enqueueProcessing, processUnifiedQueue, while_loop.
    cbn. destruct (processingUnifiedQueue q); cbn; [reflexivity|].
    destruct (unifiedQueue q ++ [task])%list; reflexivity.
  - unfold enqueueStatusProcessing, enqueueProcessing, processUnifiedQueue, while_loop.
    cbn. destruct (processingUnifiedQueue q); cbn; [reflexivity|].
    destruct (unifiedQueue q ++ [task])%list; reflexivity.
  - destruct (nth_error (running q) i) as [[task act]|]; [|symmetry; apply app_nil_r].
    unfold while_loop, settle. cbn. destruct (unifiedQueue q); cbn; rewrite app_nil_r;
      reflexivity.
  - destruct (nth_error (running q) i) as [[task act]|]; cbn; rewrite app_nil_r;
      reflexivity.
Qed.

Lemma enqueued_run evs : forall q,
  enqueued (queue_run evs q) = (enqueued q ++ pushed evs)%list.
Proof.
  induction evs as [|ev evs IH]; cbn [queue_run fold_left]; intros q.
  - cbn. rewrite app_nil_r. reflexivity.
  - change (fold_left (@queue_step Task) evs (queue_step q ev))
      with (queue_run evs (queue_step q ev)).
    rewrite IH, enqueued_step, <- app_assoc, <- pushed_cons. reflexivity.
Qed.

Lemma queue_run_cons ev evs q : queue_run (ev :: evs) q = queue_run evs (queue_step q ev).
Proof. reflexivity. Qed.

(** A worker busy with the task [x] of activation [act]: fulfilling [x]
    and then each waiting task calls the waiting tasks in order, prints the
    line of [act] for each, and leaves the queue idle. *)
Lemma drain_busy : forall (ts : list Task) x act e s d l,
  queue_run (repeat (Fulfilled 0) (1 + List.length ts))
    (mkQueue ts true [(x, act)] e s d l)
  = mkQueue [] false [] e (s ++ ts) (d ++ x :: ts)
      (l ++ repeat (processing_line act) (List.length ts)).
Proof.
  induction ts as [|t ts IH]; intros x act e s d l.
  - cbn. unfold while_loop, settle, without. cbn. rewrite !app_nil_r. reflexivity.
  - replace (repeat (@Fulfilled Task 0) (1 + List.length (t :: ts)))
      with (@Fulfilled Task 0 :: repeat (Fulfilled 0) (1 + List.length ts))
      by reflexivity.
    rewrite queue_run_cons.
    replace (queue_step (mkQueue (t :: ts) true [(x, act)] e s d l) (Fulfilled 0))
      with (mkQueue ts true [(t, act)] e (s ++ [t]) (d ++ [x])
              (l ++ [processing_line act]))
      by reflexivity.
    rewrite IH. rewrite <- !app_assoc. reflexivity.
Qed.

(** From a state where a worker is alive, draining empties the queue. *)
Lemma drain_empties q :
  queue_inv q -> worker_alive q ->
  let q' := queue_run (drain q) q in
  processingUnifiedQueue q' = false
  /\ unifiedQueue q' = [] /\ running q' = [] /\ settled q' = enqueued q.
Proof.
  intros Hinv Halive q'. subst q'.
  destruct q as [uq p r e s d l].
  destruct Hinv as (Hfifo & Hdone & Hone & Hidle).
  unfold worker_alive in Halive.
  cbn [unifiedQueue processingUnifiedQueue running enqueued started settled]
    in Hfifo, Hdone, Hone, Hidle, Halive.
  destruct r as [|[x act] [|y r]]; cbn in Hone; try lia.
  - assert (Hp : p = false).
    { destruct p; auto. destruct (Halive eq_refl) as [x Hx]. discriminate. }
    subst p. destruct (Hidle eq_refl) as [-> _].
    cbn in Hdone. rewrite app_nil_r in Hfifo, Hdone. subst. cbn. auto.
  - assert (Hp : p = true).
    { destruct p; auto. destruct (Hidle eq_refl). discriminate. }
    subst p. unfold drain. cbn [running unifiedQueue].
    change (List.length [(x, act)] + List.length uq)%nat with (1 + List.length uq)%nat.
    rewrite drain_busy. cbn. repeat split.
    cbn in Hdone. rewrite <- Hfifo, <- Hdone, <- app_assoc. reflexivity.
Qed.

End QueueProgress.

(** X17.  When no task throws, the queue makes progress: after any
    sequence of enqueue calls and fulfilments, fulfilling the task under way
    and then each waiting task in turn leaves the flag off, the list empty,
    nothing under way, and every task that was pushed over, in the order
    of the pushes. *)
Theorem queue_drains_when_no_task_throws (Task : Type) (evs : list (QueueEvent Task)) :
  no_rejection evs ->
  let q := queue_run evs new_queue in
  let q' := queue_run (drain q) q in
  processingUnifiedQueue q' = false
  /\ unifiedQueue q' = []
  /\ running q' = []
  /\ settled q' = pushed evs.
Proof.
  intros Hno q q'.
  destruct (queue_run_alive (@queue_inv_new Task) (@worker_alive_new Task) Hno)
    as [Hinv Halive].
  destruct (drain_empties Hinv Halive) as (Hp & Hq & Hr & Hs).
  fold q in Hp, Hq, Hr, Hs. fold q' in Hp, Hq, Hr, Hs.
  repeat split; auto.
  rewrite Hs. unfold q. rewrite enqueued_run. reflexivity.
Qed.

Lemma queue_drains_when_no_task_throws_witness :
  let evs := [EnqueueMessage "task1" "M1"; EnqueueStatus "task2" "M1";
              Fulfilled 0; EnqueueMessage "task3" "M2"] in
  let q := queue_run evs new_queue in
  let q' := queue_run (drain q) q in
  drain q = [Fulfilled 0; Fulfilled 0]
  /\ processingUnifiedQueue q' = false
  /\ unifiedQueue q' = []
  /\ running q' = []
  /\ settled q' = ["task1"; "task2"; "task3"].
Proof.
  intros evs q q'. split; [reflexivity|].
  apply (@queue_drains_when_no_task_throws string evs).
  repeat constructor.
Defined.





(* ================================================================== *)
(** * The logs: what [save] writes *)






(* ================================================================== *)
(** * Strings *)

Lemma split_not_nil sep s : split sep s <> [].
Proof.
  destruct s as [|c rest]; cbn; [discriminate|].
  destruct (Ascii.eqb c sep); [discriminate|].
  destruct (split sep rest); discriminate.
Qed.

Lemma split_without sep s : has_char sep s = false -> split sep s = [s].
Proof.
  induction s as [|c rest IH]; cbn; intros Hno; [reflexivity|].
  apply orb_false_iff in Hno. destruct Hno as [Hc Hrest].
  rewrite Hc, (IH Hrest). reflexivity.
Qed.

Lemma split_app sep a b :
  has_char sep a = false ->
  split sep (a ++ String sep b) = a :: split sep b.
Proof.
  induction a as [|c a IH]; cbn; intros Hno.
  - rewrite Ascii.eqb_refl. reflexivity.
  - apply orb_false_iff in Hno. destruct Hno as [Hc Ha].
    rewrite Hc, (IH Ha). reflexivity.
Qed.

Lemma join_split sep s : join (String sep EmptyString) (split sep s) = s.
Proof.
  induction s as [|c rest IH]; cbn [split]; [reflexivity|].
  destruct (Ascii.eqb_spec c sep) as [->|Hne].
  - cbn [join]. destruct (split sep rest) as [|p ps] eqn:Hs.
    + destruct (split_not_nil _ _ Hs).
    + rewrite IH. reflexivity.
  - destruct (split sep rest) as [|p ps] eqn:Hs.
    + destruct (split_not_nil _ _ Hs).
    + cbn [join] in *. destruct ps; cbn; rewrite <- IH; reflexivity.
Qed.

(* ================================================================== *)
(** * The file routes *)

Section FileRoutesFacts.
Variable decodeURIComponent : string -> Outcome string.
Variable isUUID : string -> bool.
Variable getType : string -> option string.
Variable media_path : string -> Outcome string.

(** An upload whose name decodes, with the media directory configured and
    a file system that answers. *)
Lemma uploadFile_run file uuid decoded path env (w : FileWorld) :
  decodeURIComponent (originalname file) = Returned decoded ->
  let generatedName :=
    (uuid ++ "_" ++ template (nth_error (split "." decoded) 0) ++ "."
       ++ template (nth_error (split "." decoded) 1))%string in
  media_path generatedName = Returned path ->
  fs_up env = true ->
  uploadFile decodeURIComponent media_path (Some file) uuid env w
  = (Returned (mkResponse 201 [] (JsonFilename generatedName)),
     mkWorld (messages w) (sent w) ((path, buffer file) :: files w) (console w)).
Proof.
  intros Hdec generatedName Hpath Hfs.
  unfold uploadFile, try_catch, bind, of_outcome. rewrite Hdec.
  cbv zeta. unfold template at 1. fold generatedName. rewrite Hpath.
  unfold writeFile. rewrite Hfs. reflexivity.
Qed.
End FileRoutesFacts.

Lemma split_two sep a b :
  has_char sep a = false -> has_char sep b = false ->
  split sep (a ++ String sep b) = [a; b].
Proof.
  intros Ha Hb. rewrite (@split_app _ _ _ Ha), (@split_without _ _ Hb). reflexivity.
Qed.

(** X21.  A file uploaded under a name of the form [name.ext] (no other
    dot, the name decodes to itself, the media directory is configured and
    the file system answers) is stored as [uuid_name.ext] and answered with
    201 and that generated name; [getFile] on the generated name then
    answers 200 with the uploaded content and a Content-Disposition that
    gives back [name.ext], underscores in the name included, as long as
    [isUUID] accepts the UUID and the UUID holds no underscore. *)
Theorem uploaded_file_is_served_under_its_name
    (decodeURIComponent : string -> Outcome string) (isUUID : string -> bool)
    (getType : string -> option string) (media_path : string -> Outcome string)
    (file : UploadedFile) (uuid name ext path : string) (env : Env) (w : FileWorld) :
  originalname file = (name ++ "." ++ ext)%string ->
  decodeURIComponent (originalname file) = Returned (originalname file) ->
  has_char "." name = false ->
  has_char "." ext = false ->
  has_char "_" uuid = false ->
  isUUID uuid = true ->
  let generated := (uuid ++ "_" ++ name ++ "." ++ ext)%string in
  media_path generated = Returned path ->
  fs_up env = true ->
  let up := uploadFile decodeURIComponent media_path (Some file) uuid env w in
  let down := getFile isUUID getType media_path generated env (snd up) in
  fst up = Returned (mkResponse 201 [] (JsonFilename generated))
  /\ exists more,
       fst down
       = Returned (mkResponse 200
                     (("Content-Disposition",
                       ("inline; filename=" ++ quote ++ (name ++ "." ++ ext) ++ quote)%string)
                        :: more)
                     (FileContent (buffer file))).
Proof.
  intros Hname Hdec Hn He Hu Huuid generated Hpath Hfs up down.
  assert (Hsplit : split "." (originalname file) = [name; ext]).
  { rewrite Hname. apply split_two; assumption. }
  assert (Hup : up = (Returned (mkResponse 201 [] (JsonFilename generated)),
                      mkWorld (messages w) (sent w) ((path, buffer file) :: files w)
                        (console w))).
  { unfold up.
    rewrite (@uploadFile_run decodeURIComponent media_path file uuid
               (originalname file) path env w Hdec).
    - rewrite Hsplit. reflexivity.
    - rewrite Hsplit. exact Hpath.
    - exact Hfs. }
  split; [rewrite Hup; reflexivity|].
  unfold down. rewrite Hup. cbn [snd].
  unfold getFile, try_catch, bind, of_outcome. rewrite Hpath.
  unfold existsSync, readFileSync. cbn [files existsb find fst snd].
  rewrite String.eqb_refl. cbn [orb negb files find fst snd].
  rewrite ?String.eqb_refl. cbn [fst snd].
  assert (Hparts : split "_" generated = uuid :: split "_" (name ++ "." ++ ext)).
  { unfold generated. apply (@split_app _ _ _ Hu). }
  rewrite Hparts. cbn [nth_error template tl]. rewrite Huuid, join_split.
  unfold logWithDate, modify, ret.
  destruct (or_null_string (getType path)) as [type|]; eexists; reflexivity.
Qed.

Lemma uploaded_file_is_served_under_its_name_witness :
  let decode := fun s : string => Returned s in
  let isUUID := fun s : string => Nat.eqb (String.length s) 36 in
  let getType := fun _ : string => Some "application/pdf" in
  let media_path := fun n : string => Returned ("/files/media/" ++ n) in
  let file := mkUploadedFile "my_report.pdf" "%PDF-1.7" "application/pdf" in
  let uuid := "123e4567-e89b-12d3-a456-426614174000" in
  let up := uploadFile decode media_path (Some file) uuid
              (surroundings true (fun _ => true) []) (mkWorld [] [] [] []) in
  let down := getFile isUUID getType media_path
                "123e4567-e89b-12d3-a456-426614174000_my_report.pdf"
                (surroundings true (fun _ => true) []) (snd up) in
  fst up = Returned (mkResponse 201 []
                       (JsonFilename "123e4567-e89b-12d3-a456-426614174000_my_report.pdf"))
  /\ exists more,
       fst down
       = Returned (mkResponse 200
                     (("Content-Disposition",
                       ("inline; filename=" ++ quote ++ "my_report.pdf" ++ quote)%string)
                        :: more)
                     (FileContent "%PDF-1.7")).
Proof.
  intros decode isUUID getType media_path file uuid.
  apply (@uploaded_file_is_served_under_its_name decode isUUID getType media_path
           file uuid "my_report" "pdf"
           "/files/media/123e4567-e89b-12d3-a456-426614174000_my_report.pdf"
           (surroundings true (fun _ => true) []) (mkWorld [] [] [] []));
    reflexivity.
Defined.

(** X22.  [uploadFile] keeps only the first two parts of the decoded name
    that dots separate: a name with no dot is stored with the extension
    [undefined], and of a name with more dots everything after the second
    part is lost. *)
Theorem uploadFile_keeps_two_parts_of_the_name
    (decodeURIComponent : string -> Outcome string)
    (media_path : string -> Outcome string)
    (file : UploadedFile) (uuid decoded : string) (env : Env) (w : FileWorld) :
  decodeURIComponent (originalname file) = Returned decoded ->
  (forall name, exists path, media_path name = Returned path) ->
  fs_up env = true ->
  let response := fst (uploadFile decodeURIComponent media_path (Some file) uuid env w) in
  (has_char "." decoded = false ->
   response
   = Returned (mkResponse 201 [] (JsonFilename (uuid ++ "_" ++ decoded ++ ".undefined"))))
  /\ (forall first second rest,
        decoded = (first ++ "." ++ second ++ "." ++ rest)%string ->
        has_char "." first = false -> has_char "." second = false ->
        response
        = Returned (mkResponse 201 [] (JsonFilename (uuid ++ "_" ++ first ++ "." ++ second)))).
Proof.
  intros Hdec Hpath Hfs response. unfold response. split.
  - intros Hno.
    destruct (Hpath (uuid ++ "_" ++ decoded ++ ".undefined")%string) as [path Hp].
    rewrite (@uploadFile_run decodeURIComponent media_path file uuid decoded path env w Hdec).
    + rewrite (@split_without _ _ Hno). reflexivity.
    + rewrite (@split_without _ _ Hno). exact Hp.
    + exact Hfs.
  - intros first second rest -> Hf Hs.
    destruct (Hpath (uuid ++ "_" ++ first ++ "." ++ second)%string) as [path Hp].
    assert (Hsplit : split "." (first ++ "." ++ second ++ "." ++ rest)
                     = first :: second :: split "." rest).
    { cbn. rewrite (@split_app _ _ _ Hf), (@split_app _ _ _ Hs). reflexivity. }
    rewrite (@uploadFile_run decodeURIComponent media_path file uuid _ path env w Hdec).
    + rewrite Hsplit. reflexivity.
    + rewrite Hsplit. exact Hp.
    + exact Hfs.
Qed.

Lemma uploadFile_keeps_two_parts_of_the_name_witness :
  let decode := fun s : string => Returned s in
  let media_path := fun n : string => Returned ("/files/media/" ++ n) in
  fst (uploadFile decode media_path (Some (mkUploadedFile "README" "text" "text/plain"))
         "u1" (surroundings true (fun _ => true) []) (mkWorld [] [] [] []))
  = Returned (mkResponse 201 [] (JsonFilename "u1_README.undefined"))
  /\ fst (uploadFile decode media_path
            (Some (mkUploadedFile "backup.tar.gz" "data" "application/gzip"))
            "u2" (surroundings true (fun _ => true) []) (mkWorld [] [] [] []))
     = Returned (mkResponse 201 [] (JsonFilename "u2_backup.tar")).
Proof.
  intros decode media_path. split.
  - apply (@uploadFile_keeps_two_parts_of_the_name decode media_path
             (mkUploadedFile "README" "text" "text/plain") "u1" "README"
             (surroundings true (fun _ => true) []) (mkWorld [] [] [] [])
             eq_refl (fun n => ex_intro _ _ eq_refl) eq_refl).
    reflexivity.
  - apply (proj2 (@uploadFile_keeps_two_parts_of_the_name decode media_path
             (mkUploadedFile "backup.tar.gz" "data" "application/gzip") "u2"
             "backup.tar.gz"
             (surroundings true (fun _ => true) []) (mkWorld [] [] [] [])
             eq_refl (fun n => ex_intro _ _ eq_refl) eq_refl) "backup" "tar" "gz");
      reflexivity.
Defined.

(* ================================================================== *)
(** * The sends *)

Ltac run_send :=
  cbv beta iota zeta delta
    [sendText sendFile bind ask local try_catch of_outcome setData setError on_log
     modify lift ret save get throw finishedAt new_Log fst snd on_send_log
     client_sendMessage logWithDate or_null_string truthy_string wid_serialized].

Section SendsFacts.
Variable this : Instance.
Variable client : Client.

(** [sendText] case by case. *)
Lemma sendText_run contact text quotedMessageId env (s : SendWorld) :
  exists r s',
    sendText this client contact text quotedMessageId env s = (Returned r, s')
    /\ messages (fst s') = messages (fst s)
    /\ sent (fst s') = sent (fst s)
    /\ files (fst s') = files (fst s)
    /\ (getNumberId client contact = Returned None -> r = None /\ s' = s)
    /\ (forall parsed, r = Some parsed ->
        exists numberId sentMessage,
          getNumberId client contact = Returned (Some numberId)
          /\ sendMessage_reply client
               (mkOutgoing (wid_serialized numberId) (Text text)
                  (mkSendOptions None quotedMessageId None)) = Returned sentMessage
          /\ messageParser env sentMessage = Returned (Some parsed)).
Proof.
  destruct s as [w out].
  destruct (getNumberId client contact) as [[[serialized user]|]|e] eqn:Hid.
  - destruct serialized as [|c serialized].
    + eexists; eexists. split; [run_send; rewrite Hid; run_send; reflexivity|].
      cbn. repeat split; try discriminate.
    + destruct (sendMessage_reply client
                  (mkOutgoing (String c serialized) (Text text)
                     (mkSendOptions None quotedMessageId None)))
        as [sentMessage|e] eqn:Hsend.
      * destruct (messageParser env sentMessage) as [[parsed|]|e] eqn:Hparse;
          eexists; eexists;
          (split;
           [ run_send; rewrite Hid; run_send; rewrite Hsend; run_send;
             rewrite Hparse; run_send; reflexivity |]);
          cbn; repeat split; try discriminate.
        intros parsed' Heq. injection Heq as <-.
        exists (mkNumberId (String c serialized) user), sentMessage. auto.
      * eexists; eexists.
        split; [run_send; rewrite Hid; run_send; rewrite Hsend; run_send; reflexivity|].
        cbn. repeat split; try discriminate.
  - eexists; eexists. split; [run_send; rewrite Hid; run_send; reflexivity|].
    cbn. repeat split; try discriminate.
  - eexists; eexists. split; [run_send; rewrite Hid; run_send; reflexivity|].
    cbn. repeat split; try discriminate.
Qed.

Variable base64 : string -> string.
Variable formatToOpusAudio : string -> Outcome string.

Ltac run_sendFile Haudio Hconv Hsend Hparse :=
  run_send; rewrite ?Haudio; run_send; rewrite ?Hconv; run_send;
  rewrite ?Hsend; run_send; rewrite ?Hparse; run_send; reflexivity.

(** [sendFile] case by case. *)
Lemma sendFile_run options env (s : SendWorld) :
  exists r s',
    sendFile this client base64 formatToOpusAudio options env s = (Returned r, s')
    /\ messages (fst s') = messages (fst s)
    /\ sent (fst s') = sent (fst s)
    /\ files (fst s') = files (fst s)
    /\ (strict_equal (sf_isAudio options) "true" = false ->
        snd s' = (snd s ++ [sendFile_call options (base64 (sf_file options))])%list)
    /\ (forall converted,
        strict_equal (sf_isAudio options) "true" = true ->
        formatToOpusAudio (sf_file options) = Returned converted ->
        snd s' = (snd s ++ [sendFile_call options (base64 converted)])%list)
    /\ (forall e,
        strict_equal (sf_isAudio options) "true" = true ->
        formatToOpusAudio (sf_file options) = Thrown e ->
        r = None /\ snd s' = snd s)
    /\ (forall parsed, r = Some parsed ->
        exists data sentMessage,
          sendMessage_reply client (sendFile_call options data) = Returned sentMessage
          /\ messageParser env sentMessage = Returned (Some parsed)).
Proof.
  destruct s as [w out].
  destruct (strict_equal (sf_isAudio options) "true") eqn:Haudio.
  - destruct (formatToOpusAudio (sf_file options)) as [converted|e] eqn:Hconv.
    + destruct (sendMessage_reply client (sendFile_call options (base64 converted)))
        as [sentMessage|e] eqn:Hsend.
      * destruct (messageParser env sentMessage) as [[parsed|]|e] eqn:Hparse;
          eexists; eexists;
          (split; [unfold sendFile_call in Hsend; run_sendFile Haudio Hconv Hsend Hparse|]);
          cbn; repeat split; try discriminate;
          try (intros c _ Hc; injection Hc as <-; reflexivity).
        intros parsed' Heq. injection Heq as <-. eauto.
      * eexists; eexists.
        split; [unfold sendFile_call in Hsend; run_sendFile Haudio Hconv Hsend Hsend|].
        cbn; repeat split; try discriminate.
        intros c _ Hc; injection Hc as <-; reflexivity.
    + eexists; eexists.
      split; [run_sendFile Haudio Hconv Hconv Hconv|].
      cbn; repeat split; try discriminate.
  - destruct (sendMessage_reply client (sendFile_call options (base64 (sf_file options))))
      as [sentMessage|e] eqn:Hsend.
    + destruct (messageParser env sentMessage) as [[parsed|]|e] eqn:Hparse;
        eexists; eexists;
        (split; [unfold sendFile_call in Hsend; run_sendFile Haudio Haudio Hsend Hparse|]);
        cbn; repeat split; try discriminate.
      intros parsed' Heq. injection Heq as <-. eauto.
    + eexists; eexists.
      split; [unfold sendFile_call in Hsend; run_sendFile Haudio Haudio Hsend Hsend|].
      cbn; repeat split; try discriminate.
Qed.
End SendsFacts.

(** X23.  [sendText] never throws and leaves the stored messages, the
    forwarded requests and the files as they are, so a failed send is not
    saved to a log file either.  For a number that is not registered it
    answers [undefined] and leaves no trace at all: no call of the client,
    no line.  A parsed message is answered only when the client took the
    text for the identifier of that number, with the quoted message, and the
    parser read the message sent. *)
Theorem sendText_never_throws
    (this : Instance) (client : Client) (contact : string) (text : option string)
    (quotedMessageId : option string) (env : Env) (s : SendWorld) :
  let result := sendText this client contact text quotedMessageId env s in
  (exists r, fst result = Returned r)
  /\ messages (fst (snd result)) = messages (fst s)
  /\ sent (fst (snd result)) = sent (fst s)
  /\ files (fst (snd result)) = files (fst s)
  /\ (getNumberId client contact = Returned None -> result = (Returned None, s))
  /\ (forall parsed, fst result = Returned (Some parsed) ->
      exists numberId sentMessage,
        getNumberId client contact = Returned (Some numberId)
        /\ sendMessage_reply client
             (mkOutgoing (wid_serialized numberId) (Text text)
                (mkSendOptions None quotedMessageId None)) = Returned sentMessage
        /\ messageParser env sentMessage = Returned (Some parsed)).
Proof.
  intros result. unfold result.
  destruct (@sendText_run this client contact text quotedMessageId env s)
    as (r & s' & Hrun & Hm & Hs & Hf & Hnone & Hsome).
  rewrite Hrun. cbn [fst snd].
  split; [eauto|]. repeat (split; [assumption|]).
  split.
  - intros Hid. destruct (Hnone Hid) as [-> ->]. reflexivity.
  - intros parsed Heq. injection Heq as ->. apply Hsome. reflexivity.
Qed.

(** X24.  [sendFile] never throws, leaves the stored messages, the
    forwarded requests and the files as they are, and calls the client at
    most once, for [contact@c.us].  Unless [isAudio] is the string [true]
    the file goes out as it came, and yet as a voice message for every
    [isAudio] that is not empty; when it is [true] the converted file goes
    out, and a failed conversion sends nothing. *)
Theorem sendFile_calls_the_client_once
    (this : Instance) (client : Client) (base64 : string -> string)
    (formatToOpusAudio : string -> Outcome string)
    (options : SendFileOptions) (env : Env) (s : SendWorld) :
  let result := sendFile this client base64 formatToOpusAudio options env s in
  let call data :=
    mkOutgoing (sf_contact options ++ "@c.us")
      (Media (sf_mimeType options) data (sf_fileName options))
      (mkSendOptions (sf_caption options) (sf_quotedMessageId options)
         (Some (truthy (sf_isAudio options)))) in
  (exists r, fst result = Returned r)
  /\ messages (fst (snd result)) = messages (fst s)
  /\ sent (fst (snd result)) = sent (fst s)
  /\ files (fst (snd result)) = files (fst s)
  /\ snd (snd result)
     = (snd s ++
        match sf_isAudio options with
        | Some flag =>
            if String.eqb flag "true"
            then match formatToOpusAudio (sf_file options) with
                 | Returned converted => [call (base64 converted)]
                 | Thrown _ => []
                 end
            else [call (base64 (sf_file options))]
        | None => [call (base64 (sf_file options))]
        end)%list.
Proof.
  intros result call. unfold result.
  destruct (@sendFile_run this client base64 formatToOpusAudio options env s)
    as (r & s' & Hrun & Hm & Hs & Hf & Hplain & Hconv & Hfail & _).
  rewrite Hrun. cbn [fst snd].
  split; [eauto|]. repeat (split; [assumption|]).
  unfold strict_equal, sendFile_call in *. subst call. cbv beta.
  destruct (sf_isAudio options) as [flag|].
  - destruct (String.eqb flag "true").
    + destruct (formatToOpusAudio (sf_file options)) as [converted|e].
      * apply (Hconv converted); reflexivity.
      * destruct (Hfail e eq_refl eq_refl) as [_ ->]. rewrite app_nil_r. reflexivity.
    + apply Hplain. reflexivity.
  - apply Hplain. reflexivity.
Qed.

(* ================================================================== *)
(** * The send route *)

Section SendRouteFacts.
Variable find_instance : string -> option (Instance * Client).
Variable decodeSafeURI : string -> Outcome string.
Variable getType : string -> option string.
Variable media_path : string -> Outcome string.
Variable read_media : string -> Outcome string.
Variable base64 : string -> string.
Variable formatToOpusAudio : string -> Outcome string.

(** X25.  For a known instance and a request with neither a file nor a
    file name, the send route answers 201 whatever became of the text: when
    the number is not registered nothing is sent, nothing is printed, and
    the answer is still 201, with no message in it. *)
Theorem send_route_answers_201_for_a_text
    (req : SendMessageRequest) (instance : Instance) (client : Client)
    (env : Env) (s : SendWorld) :
  find_instance (p_from req) = Some (instance, client) ->
  r_file req = None ->
  or_null_string (b_filename req) = None ->
  let result :=
    route_sendMessage find_instance decodeSafeURI getType media_path read_media
      base64 formatToOpusAudio req env s in
  (exists sentMessage,
     fst result = Returned (Some (mkResponse 201 [] (JsonParsedMessage sentMessage))))
  /\ (getNumberId client (p_to req) = Returned None ->
      result = (Returned (Some (mkResponse 201 [] (JsonParsedMessage None))), s)).
Proof.
  intros Hfind Hfile Hname result. unfold result, route_sendMessage.
  rewrite Hfind, Hfile, Hname.
  destruct (@sendText_run instance client (p_to req) (b_text req) (b_referenceId req) env s)
    as (r & s' & Hrun & _ & _ & _ & Hnone & _).
  unfold try_catch, bind. rewrite !Hrun. cbn [ret fst snd].
  split; [eauto|].
  intros Hid. destruct (Hnone Hid) as [-> ->]. reflexivity.
Qed.

(** X26.  For a request that names a stored file, a file that cannot be
    read ends the handler without any response: one line is printed,
    nothing is sent to the contact, and the caller is left waiting. *)
Theorem send_route_unreadable_file_gets_no_response
    (req : SendMessageRequest) (instance : Instance) (client : Client)
    (filename : string) (env : Env) (s : SendWorld) :
  find_instance (p_from req) = Some (instance, client) ->
  r_file req = None ->
  or_null_string (b_filename req) = Some filename ->
  (forall filePath, media_path filename = Returned filePath ->
                    exists e, read_media filePath = Thrown e) ->
  route_sendMessage find_instance decodeSafeURI getType media_path read_media
    base64 formatToOpusAudio req env s
  = (Returned None,
     (mkWorld (messages (fst s)) (sent (fst s)) (files (fst s))
        (console (fst s) ++ ["[router.js] Send message failure =>"]),
      snd s)).
Proof.
  intros Hfind Hfile Hname Hread. unfold route_sendMessage.
  rewrite Hfind, Hfile, Hname.
  unfold try_catch, bind, of_outcome, lift, logWithDate, modify, ret.
  destruct (media_path filename) as [filePath|e] eqn:Hpath; cbn [fst snd].
  - destruct (Hread filePath eq_refl) as [e ->]. cbn [fst snd]. reflexivity.
  - reflexivity.
Qed.
End SendRouteFacts.

Lemma send_route_answers_201_for_a_text_witness :
  let client := mkClient (fun _ => Returned None) (fun _ => Thrown (Error "closed")) in
  let req := mkSendMessageRequest "5511900000000" "5511000000000" (Some "hello")
               None None None None in
  let s := (mkWorld [] [] [] [], []) : SendWorld in
  route_sendMessage (fun _ => Some (acme, client)) (fun n => Returned n)
    (fun _ => None) (fun n => Returned ("/files/media/" ++ n))
    (fun _ => Thrown (Error "ENOENT")) (fun b => b) (fun b => Returned b)
    req (surroundings true (fun _ => true) []) s
  = (Returned (Some (mkResponse 201 [] (JsonParsedMessage None))), s).
Proof.
  intros client req s.
  exact (proj2 (@send_route_answers_201_for_a_text
                  (fun _ => Some (acme, client)) (fun n => Returned n)
                  (fun _ => None) (fun n => Returned ("/files/media/" ++ n))
                  (fun _ => Thrown (Error "ENOENT")) (fun b => b) (fun b => Returned b)
                  req acme client (surroundings true (fun _ => true) []) s
                  eq_refl eq_refl eq_refl) eq_refl).
Defined.

Lemma send_route_unreadable_file_gets_no_response_witness :
  let client := mkClient (fun n => Returned (Some (mkNumberId (n ++ "@c.us") n)))
                  (fun _ => Thrown (Error "closed")) in
  let req := mkSendMessageRequest "5511900000000" "5511988887777" (Some "see this")
               None (Some "123e4567_report.pdf") None None in
  route_sendMessage (fun _ => Some (acme, client)) (fun n => Returned n)
    (fun _ => None) (fun n => Returned ("/files/media/" ++ n))
    (fun _ => Thrown (Error "ENOENT")) (fun b => b) (fun b => Returned b)
    req (surroundings true (fun _ => true) []) (mkWorld [] [] [] [], [])
  = (Returned None,
     (mkWorld [] [] [] ["[router.js] Send message failure =>"], [])).
Proof.
  intros client req.
  apply (@send_route_unreadable_file_gets_no_response
           (fun _ => Some (acme, client)) (fun n => Returned n)
           (fun _ => None) (fun n => Returned ("/files/media/" ++ n))
           (fun _ => Thrown (Error "ENOENT")) (fun b => b) (fun b => Returned b)
           req acme client "123e4567_report.pdf"
           (surroundings true (fun _ => true) []) (mkWorld [] [] [] [], []));
    try reflexivity.
  intros filePath _. exists (Error "ENOENT"). reflexivity.
Defined.

(* ================================================================== *)
(** * The logs: whom [notify] tells *)

Lemma last_app_right (A : Type) (l1 l2 : list A) (d : A) :
  l2 <> [] -> last (l1 ++ l2) d = last l2 d.
Proof.
  intros Hne. induction l1 as [|x l1 IH]; [reflexivity|].
  cbn [app last]. destruct (l1 ++ l2)%list eqn:Happ; [|exact IH].
  apply app_eq_nil in Happ. destruct Happ as [_ ->]. contradiction.
Qed.

Lemma split_app_any sep a b :
  exists first others,
    split sep (a ++ String sep b) = ((first :: others) ++ split sep b)%list.
Proof.
  induction a as [|c a (first & others & IH)]; cbn [append split].
  - rewrite Ascii.eqb_refl. exists EmptyString, []. reflexivity.
  - rewrite IH. destruct (Ascii.eqb c sep).
    + exists EmptyString, (first :: others). reflexivity.
    + exists (String c first), others. reflexivity.
Qed.

(** The last segment of a path is what follows its last separator. *)
Lemma last_split sep dir name :
  has_char sep name = false ->
  last (split sep (dir ++ String sep name)) EmptyString = name.
Proof.
  intros Hname. destruct (split_app_any sep dir name) as (first & others & ->).
  rewrite last_app_right by apply split_not_nil.
  rewrite (@split_without _ _ Hname). reflexivity.
Qed.

Section NotifyFacts.
Variable T : Type.
Variable client : Client.
Variable encode : LogData T -> string.
Variable this : Log T.

Lemma notify_number_saved path entry number env ms sn fl cn out :
  errorFilePath this = Some path ->
  find (fun entry => String.eqb (fst entry) path) fl = Some entry ->
  let name := last (split "/" path) EmptyString in
  notify_number client encode this number env (mkWorld ms sn fl cn, out)
  = (Returned tt,
     (mkWorld ms sn fl
        (cn ++ if notify_failed client encode this (snd entry) name number
               then ["log notify error:"] else [])%list,
      (out ++ [notify_call encode this (snd entry) name number])%list)).
Proof.
  intros Hpath Hfind name.
  unfold notify_failed, notify_call, name, notify_number, try_catch, bind, lift,
    readFile, client_sendMessage, logWithDate, modify, ret.
  cbn [fst snd files]. rewrite Hpath. cbn [template]. rewrite Hfind. cbn [fst snd].
  match goal with
  | |- context [sendMessage_reply client ?c] => destruct (sendMessage_reply client c)
  end; cbn [fst snd messages sent files console]; rewrite ?app_nil_r; reflexivity.
Qed.

Lemma notify_loop_saved path entry numbers env ms sn fl cn out :
  errorFilePath this = Some path ->
  find (fun entry => String.eqb (fst entry) path) fl = Some entry ->
  let name := last (split "/" path) EmptyString in
  for_of numbers (notify_number client encode this) env (mkWorld ms sn fl cn, out)
  = (Returned tt,
     (mkWorld ms sn fl
        (cn ++ map (fun _ => "log notify error:")
                 (filter (notify_failed client encode this (snd entry) name) numbers))%list,
      (out ++ map (notify_call encode this (snd entry) name) numbers)%list)).
Proof.
  intros Hpath Hfind name. revert cn out.
  induction numbers as [|number rest IH]; intros cn out.
  - cbn. rewrite !app_nil_r. reflexivity.
  - cbn [for_of]. unfold bind.
    rewrite (@notify_number_saved path entry number env ms sn fl cn out Hpath Hfind).
    fold name. rewrite IH. cbn [filter map].
    destruct (notify_failed client encode this (snd entry) name number); cbn [map];
      rewrite <- !app_assoc; reflexivity.
Qed.

Lemma notify_number_unsaved number env ms sn fl cn out :
  match errorFilePath this with
  | Some path => find (fun entry => String.eqb (fst entry) path) fl = None
  | None => True
  end ->
  notify_number client encode this number env (mkWorld ms sn fl cn, out)
  = (Returned tt, (mkWorld ms sn fl (cn ++ ["log notify error:"])%list, out)).
Proof.
  intros Hnone.
  unfold notify_number, try_catch, bind, lift, readFile, client_sendMessage,
    logWithDate, modify, ret.
  cbn [fst snd files].
  destruct (errorFilePath this) as [path|]; [rewrite Hnone|]; reflexivity.
Qed.

Lemma notify_loop_unsaved numbers env ms sn fl cn out :
  match errorFilePath this with
  | Some path => find (fun entry => String.eqb (fst entry) path) fl = None
  | None => True
  end ->
  for_of numbers (notify_number client encode this) env (mkWorld ms sn fl cn, out)
  = (Returned tt,
     (mkWorld ms sn fl (cn ++ map (fun _ => "log notify error:") numbers)%list, out)).
Proof.
  intros Hnone. revert cn.
  induction numbers as [|number rest IH]; intros cn.
  - cbn. rewrite !app_nil_r. reflexivity.
  - cbn [for_of]. unfold bind.
    rewrite (@notify_number_unsaved number env ms sn fl cn out Hnone).
    rewrite IH. cbn [map]. rewrite <- !app_assoc. reflexivity.
Qed.
End NotifyFacts.

(** X27.  When the log was saved to [dir/name], [notify] sends that file
    to every number of [NOTIFY_NUMBERS] (to 555184449218 when the variable
    is not set or empty), in their order and one call each, as a JSON
    attachment called [name] under the caption [Erro: type / identifier].
    A number whose send fails costs one printed line and does not stop the
    others; [notify] itself never throws. *)
Theorem notify_sends_the_saved_file_to_every_number
    (T : Type) (client : Client) (NOTIFY_NUMBERS : option string)
    (encode : LogData T -> string) (this : Log T) (env : Env)
    (w : World (LogData T)) (out : list Outgoing)
    (dir name : string) (entry : string * LogData T) :
  errorFilePath this = Some (dir ++ "/" ++ name) ->
  has_char "/" name = false ->
  find (fun entry => String.eqb (fst entry) (dir ++ "/" ++ name)) (files w) = Some entry ->
  let numbers := split "," (or_default_string NOTIFY_NUMBERS "555184449218") in
  let call number :=
    mkOutgoing number (Media "application/json" (encode (snd entry)) (Some name))
      (mkSendOptions
         (Some ("Erro: " ++ ctx_type (context this) ++ " / "
                  ++ ctx_identifier (context this)))
         None None) in
  let failed number :=
    match sendMessage_reply client (call number) with
    | Thrown _ => true
    | Returned _ => false
    end in
  let result := notify client NOTIFY_NUMBERS encode this env (w, out) in
  fst result = Returned tt
  /\ snd (snd result) = (out ++ map call numbers)%list
  /\ console (fst (snd result))
     = (console w ++ map (fun _ => "log notify error:") (filter failed numbers))%list
  /\ messages (fst (snd result)) = messages w
  /\ sent (fst (snd result)) = sent w
  /\ files (fst (snd result)) = files w.
Proof.
  intros Hpath Hname Hfind numbers call failed result.
  unfold result, notify. fold numbers. destruct w as [ms sn fl cn].
  rewrite (@notify_loop_saved T client encode this _ entry numbers env ms sn fl cn out
             Hpath Hfind).
  change (dir ++ "/" ++ name)%string with (dir ++ String "/" name)%string.
  rewrite (@last_split "/" dir name Hname).
  cbn [fst snd messages sent files console]. repeat split.
Qed.

Lemma notify_sends_the_saved_file_to_every_number_witness :
  let client :=
    mkClient (fun _ => Returned None)
      (fun out => if String.eqb (out_chatId out) "5511999990000"
                  then Thrown (Error "closed")
                  else Returned (mkMessage "M9" "document" false 1)) in
  let log := mkLog (mkLogContext "acme" "send-file" "M1") 1700000000400 []
               (Some 1700000000450) ([] : Any) (Some (Error "boom"))
               (Some "/var/log/wa/acme/send-file/M1/1700000000500.json") in
  let content := mkLogData (mkLogContext "acme" "send-file" "M1") 1700000000400
                   1700000000450 ([] : Any) [] (Some (Error "boom")) in
  let w := mkWorld [] []
             [("/var/log/wa/acme/send-file/M1/1700000000500.json", content)] [] in
  let result := notify client (Some "5511999990000,5511888880000")
                  (fun _ => "e30=") log (surroundings true (fun _ => true) []) (w, []) in
  fst result = Returned tt
  /\ map out_chatId (snd (snd result)) = ["5511999990000"; "5511888880000"]
  /\ console (fst (snd result)) = ["log notify error:"].
Proof.
  intros client log content w result.
  destruct (@notify_sends_the_saved_file_to_every_number Any client
              (Some "5511999990000,5511888880000") (fun _ => "e30=") log
              (surroundings true (fun _ => true) []) w []
              "/var/log/wa/acme/send-file/M1" "1700000000500.json"
              ("/var/log/wa/acme/send-file/M1/1700000000500.json", content)
              eq_refl eq_refl eq_refl)
    as (Hret & Hout & Hconsole & _).
  split; [exact Hret|]. split.
  - exact (f_equal (map out_chatId) Hout).
  - exact Hconsole.
Defined.

(** X28.  On a log that was never saved, or whose file is not there,
    [notify] sends nothing: it prints one line for each number and
    returns. *)
Theorem notify_without_a_saved_file_sends_nothing
    (T : Type) (client : Client) (NOTIFY_NUMBERS : option string)
    (encode : LogData T -> string) (this : Log T) (env : Env)
    (w : World (LogData T)) (out : list Outgoing) :
  match errorFilePath this with
  | Some path => find (fun entry => String.eqb (fst entry) path) (files w) = None
  | None => True
  end ->
  let numbers := split "," (or_default_string NOTIFY_NUMBERS "555184449218") in
  notify client NOTIFY_NUMBERS encode this env (w, out)
  = (Returned tt,
     (mkWorld (messages w) (sent w) (files w)
        (console w ++ map (fun _ => "log notify error:") numbers)%list,
      out)).
Proof.
  intros Hnone numbers. unfold notify. fold numbers. destruct w as [ms sn fl cn].
  apply notify_loop_unsaved. exact Hnone.
Qed.

Lemma notify_without_a_saved_file_sends_nothing_witness :
  let client := mkClient (fun _ => Returned None) (fun _ => Thrown (Error "closed")) in
  let log := mkLog (mkLogContext "acme" "send-file" "M1") 1700000000400 []
               None ([] : Any) (Some (Error "boom")) None in
  notify client None (fun _ => "e30=") log (surroundings true (fun _ => true) [])
    (mkWorld [] [] [] [], [])
  = (Returned tt, (mkWorld [] [] [] ["log notify error:"], [])).
Proof.
  intros client log.
  exact (@notify_without_a_saved_file_sends_nothing Any client None (fun _ => "e30=") log
           (surroundings true (fun _ => true) []) (mkWorld [] [] [] []) [] I).
Defined.

(* ================================================================== *)
(** * The variables of a contact in the text of a mass message *)

Lemma has_char_app c a b : has_char c (a ++ b) = has_char c a || has_char c b.
Proof.
  induction a as [|x a IH]; cbn; [reflexivity|]. rewrite IH, orb_assoc. reflexivity.
Qed.

Lemma string_app_nil_r (s : string) : (s ++ EmptyString)%string = s.
Proof. induction s as [|c s IH]; cbn; [|rewrite IH]; reflexivity. Qed.

Lemma string_app_cons (a : string) (c : ascii) (b : string) :
  ((a ++ String c EmptyString) ++ b = a ++ String c b)%string.
Proof. induction a as [|x a IH]; cbn; [|rewrite IH]; reflexivity. Qed.

(** A pattern does not start where its first character is not. *)
Lemma prefix_absent p pat s :
  has_char p s = false -> String.prefix (String p pat) s = false.
Proof.
  destruct s as [|c s]; cbn; [reflexivity|].
  intros Hno. apply orb_false_iff in Hno. destruct Hno as [Hc _].
  destruct (ascii_dec p c) as [->|_]; [|reflexivity].
  rewrite Ascii.eqb_refl in Hc. discriminate.
Qed.

Lemma prefix_app pat s : String.prefix pat (pat ++ s) = true.
Proof.
  induction pat as [|c pat IH]; cbn; [destruct s; reflexivity|].
  destruct (ascii_dec c c) as [_|Hne]; [exact IH|]. destruct Hne. reflexivity.
Qed.

Lemma drop_app x s : drop (String.length x) (x ++ s) = s.
Proof. induction x as [|c x IH]; cbn; [reflexivity|exact IH]. Qed.

(** A text without the first character of the pattern is left as it is. *)
Lemma replace_from_absent p pat rep before s :
  has_char p s = false -> replace_from (String p pat) rep 0 before s = s.
Proof.
  revert before. induction s as [|c s IH]; intros before Hno; [reflexivity|].
  cbn [replace_from]. rewrite (@prefix_absent p pat _ Hno).
  cbn in Hno. apply orb_false_iff in Hno. destruct Hno as [_ Hs].
  rewrite (IH _ Hs). reflexivity.
Qed.

Lemma replace_from_app p pat rep before pre s :
  has_char p pre = false ->
  replace_from (String p pat) rep 0 before (pre ++ s)
  = (pre ++ replace_from (String p pat) rep 0 (before ++ pre) s)%string.
Proof.
  revert before. induction pre as [|c pre IH]; intros before Hno.
  - cbn [append]. rewrite string_app_nil_r. reflexivity.
  - assert (Hprefix : String.prefix (String p pat) (String c pre ++ s) = false).
    { cbn. cbn in Hno. apply orb_false_iff in Hno. destruct Hno as [Hc _].
      destruct (ascii_dec p c) as [->|_]; [|reflexivity].
      rewrite Ascii.eqb_refl in Hc. discriminate. }
    cbn [append] in *. cbn [replace_from]. rewrite Hprefix.
    cbn in Hno. apply orb_false_iff in Hno. destruct Hno as [_ Hpre].
    rewrite (IH _ Hpre), string_app_cons. reflexivity.
Qed.

(** The characters of a match are passed without another look. *)
Lemma replace_from_skip pat rep x before s :
  replace_from pat rep (String.length x) before (x ++ s)
  = replace_from pat rep 0 (before ++ x) s.
Proof.
  revert before. induction x as [|c x IH]; intros before.
  - cbn [append String.length]. rewrite string_app_nil_r. reflexivity.
  - cbn [append String.length replace_from]. rewrite IH, string_app_cons. reflexivity.
Qed.

(** One occurrence of the pattern, and its first character nowhere
    else. *)
Lemma replaceAll_once p pat rep pre suf :
  has_char p pre = false -> has_char p suf = false ->
  replaceAll (String p pat) rep (pre ++ String p pat ++ suf)
  = (pre ++ substitution rep (String p pat) pre suf ++ suf)%string.
Proof.
  intros Hpre Hsuf. unfold replaceAll.
  rewrite (@replace_from_app p pat rep EmptyString pre _ Hpre). cbn [append].
  f_equal.
  change (String p (pat ++ suf)) with (String p pat ++ suf)%string.
  assert (Hstep : forall before,
            replace_from (String p pat) rep 0 before (String p pat ++ suf)
            = (substitution rep (String p pat) before suf
               ++ replace_from (String p pat) rep (String.length pat)
                    (before ++ String p EmptyString) (pat ++ suf))%string).
  { intros before. cbn [append replace_from].
    change (String p (pat ++ suf)) with (String p pat ++ suf)%string.
    rewrite prefix_app, drop_app. cbn [String.length Nat.sub].
    rewrite Nat.sub_0_r. reflexivity. }
  rewrite Hstep, replace_from_skip, (@replace_from_absent p pat rep _ suf Hsuf).
  reflexivity.
Qed.

(** A text where the first character of the pattern occurs once, before
    something else than the pattern. *)
Lemma replaceAll_other p pat rep pre rest :
  has_char p pre = false -> has_char p rest = false ->
  String.prefix (String p pat) (String p rest) = false ->
  replaceAll (String p pat) rep (pre ++ String p rest) = (pre ++ String p rest)%string.
Proof.
  intros Hpre Hrest Hprefix. unfold replaceAll.
  rewrite (@replace_from_app p pat rep EmptyString pre _ Hpre). f_equal.
  cbn [replace_from]. rewrite Hprefix.
  rewrite (@replace_from_absent p pat rep _ rest Hrest). reflexivity.
Qed.

Section ContactVarsFacts.
Variable F : Type.
Variable hour : Z.
Variable contact_rows : string -> list ContactRow.

(** [getContactVars] case by case. *)
Lemma getContactVars_run number env (w : World F) :
  getContactVars hour contact_rows number env w
  = if pool_up env
    then match contact_rows number with
         | r :: _ =>
             match c_NOME r with
             | Some nome =>
                 (Returned (mkContactVars (currentSaudation hour) (sql_value (c_RAZAO r))
                              JUndefined
                              (JString (template (nth_error (split " " nome) 0)))
                              (JString nome)), w)
             | None =>
                 (Thrown (Error "Cannot read properties of null (reading 'split')"),
                  mkWorld (messages w) (sent w) (files w)
                    (console w ++ ["Get Contact vars err =>"]))
             end
         | [] =>
             (Thrown (Error "Cannot read properties of undefined (reading 'RAZAO')"),
              mkWorld (messages w) (sent w) (files w)
                (console w ++ ["Get Contact vars err =>"]))
         end
    else (Thrown (Error "pool.query"),
          mkWorld (messages w) (sent w) (files w)
            (console w ++ ["Get Contact vars err =>"])).
Proof.
  unfold getContactVars, try_catch, bind, pool_query_contact, throw, ret, logWithDate,
    modify.
  destruct (pool_up env); [|reflexivity].
  destruct (contact_rows number) as [|r rest]; [reflexivity|].
  cbn [map nth_error fst snd]. unfold row_object, js_get. cbn [find fst snd String.eqb].
  cbn. destruct (c_NOME r) as [nome|]; reflexivity.
Qed.
End ContactVarsFacts.

(** X29.  [getContactVars] throws, after printing one line, when the
    query fails, when no contact has the number, and when the first contact
    found has no name. *)
Theorem getContactVars_needs_a_named_contact
    (F : Type) (hour : Z) (contact_rows : string -> list ContactRow)
    (number : string) (env : Env) (w : World F) :
  pool_up env = false
  \/ match contact_rows number with
     | r :: _ => c_NOME r = None
     | [] => True
     end ->
  exists e,
    getContactVars hour contact_rows number env w
    = (Thrown e,
       mkWorld (messages w) (sent w) (files w)
         (console w ++ ["Get Contact vars err =>"])).
Proof.
  intros Hfail. rewrite getContactVars_run.
  destruct (pool_up env); [|eauto].
  destruct Hfail as [Hfail|Hfail]; [discriminate|].
  destruct (contact_rows number) as [|r rest]; [eauto|].
  rewrite Hfail. eauto.
Qed.

Lemma getContactVars_needs_a_named_contact_witness :
  exists e,
    getContactVars 9 (fun _ => []) "5511988887777"
      (surroundings true (fun _ => true) []) (world_of [])
    = (Thrown e, mkWorld [] [] [] ["Get Contact vars err =>"]).
Proof.
  apply (@getContactVars_needs_a_named_contact (LogData Any) 9 (fun _ => [])
           "5511988887777" (surroundings true (fun _ => true) []) (world_of [])).
  right. exact I.
Defined.

(** X30.  For a number whose first contact has a name, [getContactVars]
    returns and changes nothing; the company name is the column [RAZAO], the
    full name is [NOME], and [cliente_cnpj] is [undefined] whatever the
    column [CPF_CNPJ] holds, because the row is read at [CNPJ].  So a
    message with [@cliente_cnpj] goes out with the word [undefined] in its
    place. *)
Theorem getContactVars_never_reads_the_cnpj
    (F : Type) (hour : Z) (contact_rows : string -> list ContactRow)
    (number : string) (env : Env) (w : World F)
    (r : ContactRow) (others : list ContactRow) (nome : string) :
  pool_up env = true ->
  contact_rows number = r :: others ->
  c_NOME r = Some nome ->
  exists vars,
    getContactVars hour contact_rows number env w = (Returned vars, w)
    /\ cliente_razao vars = sql_value (c_RAZAO r)
    /\ cliente_cnpj vars = JUndefined
    /\ contato_nome_completo vars = JString nome
    /\ forall pre suf,
         has_char "@" pre = false -> has_char "@" suf = false ->
         replaceVars (pre ++ "@cliente_cnpj" ++ suf) vars
         = (pre ++ "undefined" ++ suf)%string.
Proof.
  intros Hup Hrows Hnome. rewrite getContactVars_run, Hup, Hrows, Hnome.
  eexists. split; [reflexivity|]. cbn [cliente_razao cliente_cnpj contato_nome_completo].
  repeat (split; [reflexivity|]).
  intros pre suf Hpre Hsuf. unfold replaceVars.
  cbn [saudacao_tempo cliente_razao cliente_cnpj contato_primeiro_nome
       contato_nome_completo to_string].
  assert (Hrest : has_char "@" ("cliente_cnpj" ++ suf) = false).
  { rewrite has_char_app, Hsuf. reflexivity. }
  change (pre ++ "@cliente_cnpj" ++ suf)%string
    with (pre ++ String "@" ("cliente_cnpj" ++ suf))%string.
  rewrite (@replaceAll_other "@" "saudação_tempo" _ pre _ Hpre Hrest eq_refl).
  rewrite (@replaceAll_other "@" "cliente_razao" _ pre _ Hpre Hrest eq_refl).
  change (pre ++ String "@" ("cliente_cnpj" ++ suf))%string
    with (pre ++ String "@" "cliente_cnpj" ++ suf)%string.
  rewrite (@replaceAll_once "@" "cliente_cnpj" _ pre suf Hpre Hsuf).
  cbn [substitution Ascii.eqb Bool.eqb].
  assert (Hout : has_char "@" (pre ++ "undefined" ++ suf) = false).
  { rewrite !has_char_app, Hpre, Hsuf. reflexivity. }
  unfold replaceAll.
  rewrite !(@replace_from_absent "@" _ _ _ _ Hout). reflexivity.
Qed.

Lemma getContactVars_never_reads_the_cnpj_witness :
  let rows := fun _ : string =>
    [mkContactRow (Some "ACME LTDA") (Some "12345678000199") (Some "Maria Silva")] in
  exists vars,
    getContactVars 9 rows "5511988887777"
      (surroundings true (fun _ => true) []) (world_of [])
    = (Returned vars, world_of [])
    /\ replaceVars "CNPJ: @cliente_cnpj." vars = "CNPJ: undefined.".
Proof.
  intros rows.
  destruct (@getContactVars_never_reads_the_cnpj (LogData Any) 9 rows "5511988887777"
              (surroundings true (fun _ => true) []) (world_of [])
              (mkContactRow (Some "ACME LTDA") (Some "12345678000199")
                 (Some "Maria Silva"))
              [] "Maria Silva" eq_refl eq_refl eq_refl)
    as (vars & Hrun & _ & _ & _ & Hreplace).
  exists vars. split; [exact Hrun|].
  exact (Hreplace "CNPJ: " "." eq_refl eq_refl).
Defined.
